(** * scalability_graphs.py: the numeric series behind the charts

    The script builds NumPy arrays from literal Python integers, derives
    series from them by element-wise arithmetic, hands them to matplotlib,
    writes two image files and prints a summary.

    Number types.  A NumPy array made from small Python integers has the
    default integer dtype, [int64] (on Linux and macOS, and on every platform
    from NumPy 2.0 on): its arithmetic is two's-complement arithmetic on 64
    bits and wraps around silently.  Python's own integers (the plain lists
    of Graphs 4 to 6, and scalar expressions such as
    [800 + users_per_bus * 50 + 200]) are unbounded.  An integer array that
    meets a Python float becomes a [float64] array: IEEE 754 binary64 with
    round-to-nearest-even, here the bit-level specification [SpecFloat] of
    the standard library. *)

From Stdlib Require Import ZArith Lia Bool String Ascii.
From Stdlib Require Import SpecFloat.
From Stdlib Require Import DecimalString DecimalZ DecimalPos.
From stdpp Require Import base list strings.

Local Open Scope Z_scope.

(** ** Signed 64-bit integers, as NumPy's [int64] *)

Module Int64.

Definition bits : Z := 64.
Definition modulus : Z := 2 ^ bits.
Definition min_signed : Z := - 2 ^ (bits - 1).
Definition max_signed : Z := 2 ^ (bits - 1) - 1.

(** The representative of [z] modulo [2^64] in the signed range. *)
Definition wrap (z : Z) : Z :=
  (z + 2 ^ (bits - 1)) mod modulus - 2 ^ (bits - 1).

Definition in_range (z : Z) : Prop := min_signed <= z <= max_signed.

Definition add (x y : Z) : Z := wrap (x + y).
Definition sub (x y : Z) : Z := wrap (x - y).
Definition mul (x y : Z) : Z := wrap (x * y).

End Int64.

(** An [int64] array is a list of integers, each in the signed range. *)
Definition int64_array (a : list Z) : Prop := Forall Int64.in_range a.

(** [a.max()]: the largest element; NumPy raises [ValueError] on an empty
    array, which is [None] here. *)
Fixpoint amax (a : list Z) : option Z :=
  match a with
  | [] => None
  | x :: r => Some (match amax r with Some m => Z.max x m | None => x end)
  end.

(** ** Binary64 floating point, as NumPy's [float64] *)

Module Float64.

Definition prec : Z := 53.
Definition emax : Z := 1024.

Definition zero : spec_float := S754_zero false.
Definition infinity : spec_float := S754_infinity false.

(** Conversion of an integer (an [int64] element or a Python integer scalar)
    to the nearest float. *)
Definition of_int (z : Z) : spec_float := binary_normalize prec emax z 0 false.

Definition mul : spec_float -> spec_float -> spec_float := SFmul prec emax.
Definition div : spec_float -> spec_float -> spec_float := SFdiv prec emax.
Definition leb : spec_float -> spec_float -> bool := SFleb.

Definition is_nan (x : spec_float) : bool :=
  match x with S754_nan => true | _ => false end.

(** [np.maximum(x, y)], one element: [x] when [x >= y] or [x] is NaN,
    otherwise [y]. *)
Definition maximum (x y : spec_float) : spec_float :=
  if leb y x || is_nan x then x else y.

(** What Python reads the literal [0.06] as: 8646911284551352 * 2^-57, the
    float nearest to 6/100. *)
Definition lit_0_06 : spec_float := S754_finite false 8646911284551352 (-57).

End Float64.

(** ** Graph 1: users against daily operations of one bus *)

Definition users : list Z := [0; 100; 200; 500; 800; 1000; 1500; 2000].

(** [800 + users * 50 + 200], element by element and in the order Python
    evaluates it: the product first, then the two sums, each in [int64]. *)
Definition operations_single_bus_of (users : list Z) : list Z :=
  (fun u => Int64.add (Int64.add 800 (Int64.mul u 50)) 200) <$> users.

Definition operations_single_bus : list Z := operations_single_bus_of users.

Definition spark_limit : Z := 50000.

(** ** Graph 2: number of buses against daily operations *)

Definition buses : list Z := [1; 2; 3; 4; 5; 6; 7; 8].

Definition users_per_bus : Z := 500.

(** [buses * (800 + users_per_bus * 50 + 200)]: the parenthesis is a Python
    integer, computed exactly; its product with the array is in [int64]. *)
Definition operations_multi_bus_of (buses : list Z) : list Z :=
  (fun b => Int64.mul b (800 + users_per_bus * 50 + 200)) <$> buses.

Definition operations_multi_bus : list Z := operations_multi_bus_of buses.

(** ** Graph 3: cost of the two plans *)

Definition operations_range : list Z :=
  [10000; 25000; 50000; 100000; 200000; 500000].

(** [np.where(operations_range <= 50000, 0, np.inf)] *)
Definition spark_cost_of (operations_range : list Z) : list spec_float :=
  (fun o => if o <=? 50000 then Float64.zero else Float64.infinity)
    <$> operations_range.

(** One element of
    [np.maximum(0, (operations_range - 50000) * 0.06 / 100000)]: the
    difference is taken in [int64], converted to [float64] by the product
    with the float literal, and divided by the scalar [100000] as a float. *)
Definition blaze_cost_at (o : Z) : spec_float :=
  Float64.maximum (Float64.of_int 0)
    (Float64.div
       (Float64.mul (Float64.of_int (Int64.sub o 50000)) Float64.lit_0_06)
       (Float64.of_int 100000)).

Definition blaze_cost_of (operations_range : list Z) : list spec_float :=
  blaze_cost_at <$> operations_range.

Definition spark_cost : list spec_float := spark_cost_of operations_range.
Definition blaze_cost : list spec_float := blaze_cost_of operations_range.

(** ** Exceptions

    The two ways a statement of the script can fail.  The script catches
    nothing: an exception ends the run at the call that raised it, and what
    the calls before it did stays done. *)

Inductive exn : Type :=
| ValueError                          (* [max] of an empty array *)
| OSError (path : string).            (* [savefig] to a path that cannot be opened *)

(** ** What is drawn on the axes of Graphs 1 and 2 *)

Inductive artist : Type :=
| Line (xs ys : list Z) (label : string)                  (* ax.plot *)
| HLine (y : Z) (label : string)                          (* ax.axhline *)
| Fill (xs : list Z) (y1 y2 : Z) (color label : string).  (* ax.fill_between *)

(** How the drawing calls on one axes end: all of them returned, or one of
    them raised.  Either way the axes holds the artists of the calls that
    returned, in the order of the calls. *)
Inductive drawing : Type :=
| Drawn (arts : list artist)
| Stopped (e : exn) (arts : list artist).

Definition artists (d : drawing) : list artist :=
  match d with Drawn arts => arts | Stopped _ arts => arts end.

(** The artists of an axes on which every call returned. *)
Definition completed (d : drawing) : option (list artist) :=
  match d with Drawn arts => Some arts | Stopped _ _ => None end.

(** The four drawing calls on [ax1], in source order (lines 13 to 16).  The
    upper edge of the second fill, [operations_single_bus.max()], is an
    argument of the fourth call: where it raises, the first three calls have
    returned and the fourth draws nothing. *)
Definition ax1_of (users : list Z) : drawing :=
  let ops := operations_single_bus_of users in
  let arts := [ Line users ops "Total Operations";
                HLine spark_limit "Spark Plan Limit";
                Fill users 0 spark_limit "green" "Safe Zone" ] in
  match amax ops with
  | None => Stopped ValueError arts
  | Some top => Drawn (arts ++ [Fill users spark_limit top "red" "Danger Zone"])
  end.

(** The same four calls on [ax2] (lines 28 to 31), with
    [operations_multi_bus.max()]. *)
Definition ax2_of (buses : list Z) : drawing :=
  let ops := operations_multi_bus_of buses in
  let arts := [ Line buses ops "Total Operations";
                HLine spark_limit "Spark Plan Limit";
                Fill buses 0 spark_limit "green" "Safe Zone" ] in
  match amax ops with
  | None => Stopped ValueError arts
  | Some top => Drawn (arts ++ [Fill buses spark_limit top "red" "Danger Zone"])
  end.

(** The two axes of the script, once all their calls have returned. *)
Definition ax1 : option (list artist) := completed (ax1_of users).
Definition ax2 : option (list artist) := completed (ax2_of buses).

(** The plotted series and the vertical extent of the fill with a given
    label, read back from what was drawn. *)
Definition plotted (arts : list artist) : list (list Z) :=
  omap (fun a => match a with Line _ ys _ => Some ys | _ => None end) arts.

Definition fill_extent (label : string) (arts : list artist) : list (Z * Z) :=
  omap (fun a => match a with
                 | Fill _ y1 y2 _ l => if String.eqb l label then Some (y1, y2) else None
                 | _ => None
                 end) arts.

(** ** Graph 4: load scenarios (plain Python lists) *)

Definition load_scenarios : list string :=
  ["1B+100U"; "1B+500U"; "1B+1000U"; "2B+500U"; "3B+1000U"; "5B+2000U"].
Definition operations : list Z := [6000; 26000; 51000; 27000; 53000; 105000].
Definition colors : list string :=
  ["green"; "green"; "orange"; "green"; "red"; "red"].
Definition status : list string :=
  ["Safe"; "Safe"; "Warning"; "Safe"; "Critical"; "Critical"].

Record bar : Type := { bar_x : string; bar_height : Z; bar_color : string }.

(** [ax4.bar(load_scenarios, operations, color=colors)]: one bar per
    scenario. *)
Definition bars : list bar :=
  zip_with (fun xh c => {| bar_x := xh.1; bar_height := xh.2; bar_color := c |})
           (zip load_scenarios operations) colors.

(** The text put above a bar: the operation count (printed with thousands
    separators) on one line and the status on the next. *)
Record annotation : Type :=
  { ann_bar : bar; ann_value : Z; ann_status : string }.

(** [for bar, op, stat in zip(bars, operations, status): ax4.text(...)] *)
Definition annotations : list annotation :=
  zip_with (fun bo s => {| ann_bar := bo.1; ann_value := bo.2; ann_status := s |})
           (zip bars operations) status.

(** ** Graphs 5 and 6: breakdown and optimisation impact *)

Definition operations_breakdown : list Z := [800; 400; 50000; 200; 144].

Definition scenarios_opt : list string :=
  ["No Optimization"; "Current Optimization"; "Full Optimization"].
Definition operations_before : list Z := [150000; 51544; 25000].

(** The whole of the pie: what the wedge percentages are fractions of. *)
Definition pie_total (values : list Z) : Z := foldr Z.add 0 values.

(** The bars of Graph 6, [zip(scenarios_opt, operations_before)], and the
    value of the bar with a given label. *)
Definition bars_opt : list (string * Z) := zip scenarios_opt operations_before.

Definition bar_value (label : string) (bs : list (string * Z)) : option Z :=
  snd <$> find (fun b => String.eqb b.1 label) bs.

(** ** The run of the script

    The script is a sequence of module-level statements.  The ones that
    touch the outside world are [plt.savefig], which raises when the path
    cannot be written, [plt.show] and [print].  A raised exception is never
    caught: it ends the run. *)

(** What the environment decides: whether a path can be written. *)
Record Env : Type := { can_write : string -> bool }.

Record State : Type :=
  { v_operations_single_bus : option (list Z);
    v_operations_multi_bus : option (list Z);
    v_spark_cost : option (list spec_float);
    v_blaze_cost : option (list spec_float);
    axes : list (list artist);   (* what was drawn, one entry per axes *)
    saved : list string;         (* image files written, in order *)
    shown : nat;                 (* calls of [plt.show] *)
    stdout : list string }.      (* strings written to standard output, in order *)

Definition init : State :=
  {| v_operations_single_bus := None; v_operations_multi_bus := None;
     v_spark_cost := None; v_blaze_cost := None;
     axes := []; saved := []; shown := 0%nat; stdout := [] |}.

Inductive Outcome : Type :=
| Finished (s : State)
| Raised (e : exn) (s : State).

Definition state_of (o : Outcome) : State :=
  match o with Finished s => s | Raised _ s => s end.

Definition stmt : Type := State -> Outcome.

Definition seq (a b : stmt) : stmt :=
  fun s => match a s with Finished s' => b s' | Raised e s' => Raised e s' end.

Declare Scope stmt_scope.
Delimit Scope stmt_scope with stmt.
Bind Scope stmt_scope with stmt.
Notation "a ;; b" := (seq a b) (at level 100, b at level 200) : stmt_scope.

Definition nl : string := String "010"%char "".

(** [print(msg)]: the message, then a newline. *)
Definition print (msg : string) : stmt :=
  fun s =>
    Finished {| v_operations_single_bus := v_operations_single_bus s;
                v_operations_multi_bus := v_operations_multi_bus s;
                v_spark_cost := v_spark_cost s; v_blaze_cost := v_blaze_cost s;
                axes := axes s; saved := saved s; shown := shown s;
                stdout := stdout s ++ [msg +:+ nl] |}.

Definition savefig (env : Env) (path : string) : stmt :=
  fun s =>
    if can_write env path then
      Finished {| v_operations_single_bus := v_operations_single_bus s;
                  v_operations_multi_bus := v_operations_multi_bus s;
                  v_spark_cost := v_spark_cost s; v_blaze_cost := v_blaze_cost s;
                  axes := axes s; saved := saved s ++ [path]; shown := shown s;
                  stdout := stdout s |}
    else Raised (OSError path) s.

Definition show : stmt :=
  fun s =>
    Finished {| v_operations_single_bus := v_operations_single_bus s;
                v_operations_multi_bus := v_operations_multi_bus s;
                v_spark_cost := v_spark_cost s; v_blaze_cost := v_blaze_cost s;
                axes := axes s; saved := saved s; shown := S (shown s);
                stdout := stdout s |}.

(** Lines 9 to 21: the series of Graph 1 is assigned, then drawn.  Were a
    drawing call to raise, the series would stay assigned and the axes would
    keep what was drawn before. *)
Definition graph1 : stmt :=
  fun s =>
    let s' := {| v_operations_single_bus := Some operations_single_bus;
                 v_operations_multi_bus := v_operations_multi_bus s;
                 v_spark_cost := v_spark_cost s; v_blaze_cost := v_blaze_cost s;
                 axes := axes s ++ [artists (ax1_of users)];
                 saved := saved s; shown := shown s; stdout := stdout s |} in
    match ax1_of users with
    | Drawn _ => Finished s'
    | Stopped e _ => Raised e s'
    end.

(** Lines 24 to 36. *)
Definition graph2 : stmt :=
  fun s =>
    let s' := {| v_operations_single_bus := v_operations_single_bus s;
                 v_operations_multi_bus := Some operations_multi_bus;
                 v_spark_cost := v_spark_cost s; v_blaze_cost := v_blaze_cost s;
                 axes := axes s ++ [artists (ax2_of buses)];
                 saved := saved s; shown := shown s; stdout := stdout s |} in
    match ax2_of buses with
    | Drawn _ => Finished s'
    | Stopped e _ => Raised e s'
    end.

(** Lines 39 to 41: the two cost series. *)
Definition graph3 : stmt :=
  fun s =>
    Finished {| v_operations_single_bus := v_operations_single_bus s;
                v_operations_multi_bus := v_operations_multi_bus s;
                v_spark_cost := Some spark_cost; v_blaze_cost := Some blaze_cost;
                axes := axes s; saved := saved s; shown := shown s;
                stdout := stdout s |}.

Definition path_scalability : string :=
  "c:/xampp/htdocs/viscous/backend_scalability_analysis.png".
Definition path_optimization : string :=
  "c:/xampp/htdocs/viscous/optimization_analysis.png".

(** Lines 111 to 117: seven calls of [print], each with a string literal (the
    second one starts with a newline). *)
Definition print_summary : stmt :=
  (print "Scalability analysis graphs generated successfully!" ;;
   print (nl +:+ "Key Findings:") ;;
   print "1. Single bus can handle up to 800 users safely on Spark plan" ;;
   print "2. Multiple buses require careful user distribution" ;;
   print "3. 3+ buses with 1000+ users need Blaze plan" ;;
   print "4. Current optimizations reduce operations by ~66%" ;;
   print "5. Further optimizations could support 2000+ users on Spark plan")%stmt.

(** The script from top to bottom.  The drawing calls of Graphs 3 to 6 and
    the titles, labels and legends are left out: they raise nothing on these
    constants and change nothing that is observed here. *)
Definition main (env : Env) : stmt :=
  (graph1 ;; graph2 ;; graph3 ;;
   savefig env path_scalability ;; show ;;
   savefig env path_optimization ;; show ;;
   print_summary)%stmt.

(** The text on standard output, cut into lines at each newline. *)
Fixpoint split_lines (cur : string) (s : string) : list string :=
  match s with
  | EmptyString => match cur with EmptyString => [] | _ => [String.rev cur] end
  | String c r =>
      if Ascii.eqb c "010" then String.rev cur :: split_lines "" r
      else split_lines (String c cur) r
  end.

Definition stdout_lines (s : State) : list string :=
  split_lines "" (foldr String.append "" (stdout s)).

(** A line of an enumerated list: a digit, a full stop, then the item. *)
Definition is_enumerated (line : string) : bool :=
  match line with
  | String d (String "."%char _) =>
      (48 <=? Z.of_nat (nat_of_ascii d)) && (Z.of_nat (nat_of_ascii d) <=? 57)
  | _ => false
  end.

(** The messages of the summary, as the specification lists them: one
    confirmation line, a heading after an empty line, five findings. *)
Definition confirmation : string :=
  "Scalability analysis graphs generated successfully!".
Definition header : string := nl +:+ "Key Findings:".
Definition findings : list string :=
  [ "1. Single bus can handle up to 800 users safely on Spark plan";
    "2. Multiple buses require careful user distribution";
    "3. 3+ buses with 1000+ users need Blaze plan";
    "4. Current optimizations reduce operations by ~66%";
    "5. Further optimizations could support 2000+ users on Spark plan" ].

(** What the summary is to write: each message, then a newline. *)
Definition summary_output : list string :=
  (fun m => m +:+ nl) <$> confirmation :: header :: findings.

(** An environment in which both image files can be written, and one in which
    no file can. *)
Definition env_writable : Env := {| can_write := fun _ => true |}.
Definition env_read_only : Env := {| can_write := fun _ => false |}.

(** ** Notions used to reason about rounding

    A float operation computes an integer mantissa [m], an exponent and a
    _location_ that says where the exact result lies between [m] and [m + 1],
    and rounds that.  The exact result is kept here as a fraction [n / q]. *)

(** Where a remainder [r] of a division by [q] lies: nothing left, below the
    half, at the half, above it. *)
Definition loc_of (r q : Z) : location :=
  if r =? 0 then loc_Exact else loc_Inexact (2 * r ?= q).

(** The record of a right shift holds the quotient [n / q] and the location
    of the remainder. *)
Definition rec_locates (n q : Z) (mrs : shr_record) : Prop :=
  shr_m mrs = n / q /\ loc_of_shr_record mrs = loc_of (n mod q) q.

(** Rounding of [n / q], known to have 53 significant bits, to nearest with
    ties to even: the mantissa, and 1 when the mantissa overflowed to [2^53]
    and the exponent has to go up. *)
Definition round_pos (n q : Z) : Z * Z :=
  let m := round_nearest_even (n / q) (loc_of (n mod q) q) in
  if m <? 2 ^ Float64.prec then (m, 0) else (2 ^ (Float64.prec - 1), 1).

(** A finite float of sign [s] whose mantissa has exactly 53 bits and whose
    exponent lies between [lo] and [hi]. *)
Definition normal (s : bool) (lo hi : Z) (f : spec_float) : Prop :=
  exists m e, f = S754_finite s m e /\
              Zdigits2 (Z.pos m) = Float64.prec /\ lo <= e <= hi.

(** The left shift that brings a positive integer to 53 bits before it is
    rounded (none when it has more). *)
Definition int_shift (p : positive) : Z :=
  Z.max 0 (Float64.prec - Z.pos (digits2_pos p)).

(** The formulas as the specification words them: the integer parts over the
    integers, with no wrap-around; the parts on "numbers" (the rate 0.06 and
    the division) in binary64, as in the code. *)
Definition single_bus_formula (u : Z) : Z := u * 50 + 1000.
Definition multi_bus_formula (b : Z) : Z := b * 26000.
Definition blaze_formula (o : Z) : spec_float :=
  Float64.maximum (Float64.of_int 0)
    (Float64.div (Float64.mul (Float64.of_int (o - 50000)) Float64.lit_0_06)
                 (Float64.of_int 100000)).

(** ** Further parts of the script *)

(** [ax3.set_ylim(0, 10)]: the y-range of Graph 3, and whether a point of a
    curve falls inside it. *)
Definition ax3_ylim : Z * Z := (0, 10).

Definition in_ylim (y : spec_float) : bool :=
  Float64.leb (Float64.of_int ax3_ylim.1) y &&
  Float64.leb y (Float64.of_int ax3_ylim.2).

(** The largest Blaze cost there is, about 5.5e12: that of the largest
    [int64] difference, [2^63 - 1]. *)
Definition blaze_cost_max : spec_float :=
  S754_finite false 5666839779443574 (-10).

(** A float that is [+0] or positive and finite. *)
Definition nonneg_finite (f : spec_float) : Prop :=
  f = S754_zero false \/ exists m e, f = S754_finite false m e.

(** The format [{op:,}] of the labels above the bars: the decimal digits in
    groups of three from the right, with a comma between groups.  [group3]
    walks the digits from the least significant one; [k] is the size of the
    group it is in. *)
Fixpoint group3 (k : nat) (ds : list ascii) : list ascii :=
  match ds with
  | [] => []
  | d :: r =>
      if Nat.eqb k 3 then ","%char :: d :: group3 1 r else d :: group3 (S k) r
  end.

Definition group_digits (ds : list ascii) : list ascii :=
  rev (group3 0 (rev ds)).

Definition format_thousands (z : Z) : string :=
  match Z.to_int z with
  | Decimal.Pos d =>
      string_of_list_ascii
        (group_digits (list_ascii_of_string (NilZero.string_of_uint d)))
  | Decimal.Neg d =>
      String "-"
        (string_of_list_ascii
           (group_digits (list_ascii_of_string (NilZero.string_of_uint d))))
  end.

(** [f'{op:,}\n{stat}'], the text of an annotation of Graph 4, and
    [f'{op:,}'], the labels of Graph 6. *)
Definition annotation_text (a : annotation) : string :=
  format_thousands (ann_value a) +:+ nl +:+ ann_status a.

Definition labels_opt : list string := format_thousands <$> operations_before.

(** Reading a label back: the commas are dropped and the rest is read as a
    decimal number, as [int(s.replace(',', ''))] does. *)
Definition remove_commas (cs : list ascii) : list ascii :=
  List.filter (fun c => negb (Ascii.eqb c ",")) cs.

Definition parse_thousands (s : string) : option Z :=
  option_map Z.of_int
    (NilZero.int_of_string
       (string_of_list_ascii (remove_commas (list_ascii_of_string s)))).

(** The characters a label is made of. *)
Definition is_digit (c : ascii) : bool :=
  existsb (Ascii.eqb c) ["0"; "1"; "2"; "3"; "4"; "5"; "6"; "7"; "8"; "9"]%char.

Definition label_char (c : ascii) : bool :=
  is_digit c || Ascii.eqb c "," || Ascii.eqb c "-".

Local Abbreviation prec := Float64.prec.
Local Abbreviation emax := Float64.emax.

(** * Properties *)

(** ** Wrap-around arithmetic *)

Lemma wrap_in_range (z : Z) : Int64.in_range (Int64.wrap z).
Proof.
  unfold Int64.in_range, Int64.wrap, Int64.min_signed, Int64.max_signed.
  pose proof (Z.mod_pos_bound (z + 2 ^ (Int64.bits - 1)) Int64.modulus eq_refl) as B.
  change Int64.modulus with (2 * 2 ^ (Int64.bits - 1)) in *. lia.
Qed.

Lemma wrap_small (z : Z) : Int64.in_range z -> Int64.wrap z = z.
Proof.
  unfold Int64.in_range, Int64.wrap, Int64.min_signed, Int64.max_signed.
  intros H. rewrite Z.mod_small; [lia |].
  change Int64.modulus with (2 * 2 ^ (Int64.bits - 1)). lia.
Qed.

Lemma wrap_fixed_iff (z : Z) : Int64.wrap z = z <-> Int64.in_range z.
Proof.
  split; [ | apply wrap_small ]. intros <-. apply wrap_in_range.
Qed.

(** Adding to a wrapped value is adding to the value, as far as the wrapped
    result goes. *)
Lemma wrap_add_wrap_l (a b : Z) : Int64.wrap (Int64.wrap a + b) = Int64.wrap (a + b).
Proof.
  unfold Int64.wrap. f_equal.
  replace ((a + 2 ^ (Int64.bits - 1)) mod Int64.modulus - 2 ^ (Int64.bits - 1)
           + b + 2 ^ (Int64.bits - 1))
    with ((a + 2 ^ (Int64.bits - 1)) mod Int64.modulus + b) by lia.
  rewrite Zplus_mod_idemp_l. f_equal. lia.
Qed.

(** One element of the single-bus series, in one wrap. *)
Lemma single_bus_wrap (u : Z) :
  Int64.add (Int64.add 800 (Int64.mul u 50)) 200 = Int64.wrap (single_bus_formula u).
Proof.
  unfold Int64.add, Int64.mul, single_bus_formula.
  rewrite wrap_add_wrap_l, <- Z.add_assoc, (Z.add_comm 800), <- Z.add_assoc, wrap_add_wrap_l.
  reflexivity.
Qed.

Lemma single_bus_lookup (users : list Z) (i : nat) (u : Z) :
  users !! i = Some u ->
  operations_single_bus_of users !! i = Some (Int64.wrap (single_bus_formula u)).
Proof.
  intros H. unfold operations_single_bus_of.
  rewrite list_lookup_fmap, H. simpl. f_equal. apply single_bus_wrap.
Qed.

Lemma multi_bus_lookup (buses : list Z) (i : nat) (b : Z) :
  buses !! i = Some b ->
  operations_multi_bus_of buses !! i = Some (Int64.wrap (multi_bus_formula b)).
Proof.
  intros H. unfold operations_multi_bus_of.
  rewrite list_lookup_fmap, H. reflexivity.
Qed.

(** ** The two operations series *)

(** A wrapped value differs from the value by a multiple of [2^64]. *)
Lemma wrap_congruent (z : Z) : exists k : Z, Int64.wrap z = z + k * 2 ^ 64.
Proof.
  exists (- ((z + 2 ^ 63) / 2 ^ 64)). unfold Int64.wrap.
  change (2 ^ (Int64.bits - 1)) with (2 ^ 63). change Int64.modulus with (2 ^ 64).
  pose proof (Z.div_mod (z + 2 ^ 63) (2 ^ 64) ltac:(lia)). lia.
Qed.

Lemma single_bus_fits (u : Z) :
  0 <= u -> (Int64.in_range (u * 50 + 1000) <-> u <= 184467440737095496).
Proof.
  unfold Int64.in_range, Int64.min_signed, Int64.max_signed.
  change (2 ^ (Int64.bits - 1)) with 9223372036854775808. lia.
Qed.

(** C1 (as amended): for every index [i] into an [int64] array of users, the
    single-bus operations series holds at [i] the signed 64-bit integer that
    is congruent to [users[i] * 50 + 1000] modulo [2^64]: that number itself
    if, and only if, it fits in a signed 64-bit integer (for a non-negative
    [users[i]]: up to 184467440737095496 users), and its wrap-around
    otherwise; [users = [0, 100, 1000]] gives [[1000, 6000, 51000]]. *)
Theorem C1_single_bus_series :
  (forall (users : list Z) (i : nat) (u : Z),
      int64_array users -> users !! i = Some u ->
      exists y k : Z,
        operations_single_bus_of users !! i = Some y /\
        Int64.in_range y /\ y = u * 50 + 1000 + k * 2 ^ 64 /\
        (Int64.in_range (u * 50 + 1000) <-> y = u * 50 + 1000) /\
        (0 <= u -> (y = u * 50 + 1000 <-> u <= 184467440737095496))) /\
  operations_single_bus_of [0; 100; 1000] = [1000; 6000; 51000].
Proof.
  split; [ | reflexivity ].
  intros users i u _ Hi.
  destruct (wrap_congruent (single_bus_formula u)) as [k Hk].
  exists (Int64.wrap (single_bus_formula u)), k.
  split; [exact (single_bus_lookup _ _ _ Hi) |].
  split; [apply wrap_in_range |].
  split; [exact Hk |].
  unfold single_bus_formula in *.
  assert (F : Int64.in_range (u * 50 + 1000) <-> Int64.wrap (u * 50 + 1000) = u * 50 + 1000)
    by (symmetry; apply wrap_fixed_iff).
  split; [exact F |].
  intros Hu. rewrite <- F. now apply single_bus_fits.
Qed.

Lemma C1_single_bus_series_witness :
  exists y k : Z,
    operations_single_bus_of [0; 100; 1000] !! 2%nat = Some y /\
    Int64.in_range y /\ y = 1000 * 50 + 1000 + k * 2 ^ 64 /\
    (Int64.in_range (1000 * 50 + 1000) <-> y = 1000 * 50 + 1000) /\
    (0 <= 1000 -> (y = 1000 * 50 + 1000 <-> 1000 <= 184467440737095496)).
Proof.
  apply (proj1 C1_single_bus_series [0; 100; 1000] 2%nat 1000).
  - unfold int64_array. repeat constructor; vm_compute; discriminate.
  - reflexivity.
Defined.

(** C1 as stated fails: non-negativity of the input is not enough.  With
    [2^62] users the product [users * 50] leaves the 64-bit range, and the
    series holds [-2^63 + 1000] instead of [2^62 * 50 + 1000]. *)
Lemma C1_single_bus_overflow :
  int64_array [2 ^ 62] /\ 0 <= 2 ^ 62 /\
  operations_single_bus_of [2 ^ 62] !! 0%nat = Some (- 2 ^ 63 + 1000) /\
  ~ (forall (users : list Z) (i : nat) (u : Z),
        int64_array users -> users !! i = Some u -> 0 <= u ->
        operations_single_bus_of users !! i = Some (single_bus_formula u)).
Proof.
  assert (A : int64_array [2 ^ 62]).
  { constructor; [ | constructor ].
    unfold Int64.in_range, Int64.min_signed, Int64.max_signed, Int64.bits. simpl. lia. }
  split; [exact A |]. split; [simpl; lia |]. split; [reflexivity |].
  intros H. specialize (H [2 ^ 62] 0%nat (2 ^ 62) A eq_refl ltac:(simpl; lia)).
  vm_compute in H. discriminate H.
Qed.

(** C2 (as amended): for every index [i] into an [int64] array of bus counts,
    the multi-bus series with 500 users per bus holds at [i] the signed
    64-bit integer that is congruent to
    [buses[i] * (500 * 50 + 1000) = buses[i] * 26000] modulo [2^64]: that
    number itself if, and only if, it fits in a signed 64-bit integer, and
    its wrap-around otherwise; [buses = [1, 2, 5]] gives
    [[26000, 52000, 130000]]. *)
Theorem C2_multi_bus_series :
  (forall (buses : list Z) (i : nat) (b : Z),
      int64_array buses -> buses !! i = Some b ->
      b * (users_per_bus * 50 + 1000) = b * 26000 /\
      exists y k : Z,
        operations_multi_bus_of buses !! i = Some y /\
        Int64.in_range y /\ y = b * 26000 + k * 2 ^ 64 /\
        (Int64.in_range (b * 26000) <-> y = b * 26000)) /\
  users_per_bus = 500 /\
  operations_multi_bus_of [1; 2; 5] = [26000; 52000; 130000].
Proof.
  split; [ | split; reflexivity ].
  intros buses i b _ Hi. split; [reflexivity |].
  destruct (wrap_congruent (multi_bus_formula b)) as [k Hk].
  exists (Int64.wrap (multi_bus_formula b)), k.
  split; [exact (multi_bus_lookup _ _ _ Hi) |].
  split; [apply wrap_in_range |].
  split; [exact Hk |].
  unfold multi_bus_formula. symmetry. apply wrap_fixed_iff.
Qed.

Lemma C2_multi_bus_series_witness :
  5 * (users_per_bus * 50 + 1000) = 5 * 26000 /\
  exists y k : Z,
    operations_multi_bus_of [1; 2; 5] !! 2%nat = Some y /\
    Int64.in_range y /\ y = 5 * 26000 + k * 2 ^ 64 /\
    (Int64.in_range (5 * 26000) <-> y = 5 * 26000).
Proof.
  apply (proj1 C2_multi_bus_series [1; 2; 5] 2%nat 5).
  - unfold int64_array. repeat constructor; vm_compute; discriminate.
  - reflexivity.
Defined.

(** C2 as stated fails on large bus counts: [2^62 * 26000] is a multiple of
    [2^64], so the series holds 0 for [2^62] buses. *)
Lemma C2_multi_bus_overflow :
  int64_array [2 ^ 62] /\
  operations_multi_bus_of [2 ^ 62] !! 0%nat = Some 0 /\
  ~ (forall (buses : list Z) (i : nat) (b : Z),
        int64_array buses -> buses !! i = Some b ->
        operations_multi_bus_of buses !! i = Some (multi_bus_formula b)).
Proof.
  assert (A : int64_array [2 ^ 62]).
  { constructor; [ | constructor ].
    unfold Int64.in_range, Int64.min_signed, Int64.max_signed, Int64.bits. simpl. lia. }
  split; [exact A |]. split; [reflexivity |].
  intros H. specialize (H [2 ^ 62] 0%nat (2 ^ 62) A eq_refl).
  vm_compute in H. discriminate H.
Qed.

(** ** Rounding to nearest in binary64

    [binary_round_aux] is what every float operation ends with.  It is
    characterised here on inputs that carry at least 53 bits and whose result
    is a normal number, and shown to be monotone in the exact value it is
    given.  Multiplication and division by a positive normal constant, and
    the conversion of an integer, inherit it. *)

(** [digits2_pos] counts the bits of a positive number. *)
Lemma digits2_pos_bounds (p : positive) :
  2 ^ (Z.pos (digits2_pos p) - 1) <= Z.pos p < 2 ^ Z.pos (digits2_pos p).
Proof.
  induction p as [p IH | p IH |]; simpl digits2_pos; [ | | simpl; lia ].
  all: rewrite Pos2Z.inj_succ, Z.pow_succ_r by lia.
  all: replace (Z.succ (Z.pos (digits2_pos p)) - 1)
         with (Z.succ (Z.pos (digits2_pos p) - 1)) by lia.
  all: rewrite Z.pow_succ_r by lia; lia.
Qed.

(** A right shift by one bit halves the scale: the record still holds the
    quotient and the location of the remainder, now of a division by [2 * q]. *)
Lemma shr_1_locates (n q : Z) (mrs : shr_record) :
  0 < q -> 0 <= n -> rec_locates n q mrs -> rec_locates n (2 * q) (shr_1 mrs).
Proof.
  intros Hq Hn [Hm Hl].
  assert (Hdiv : n / (2 * q) = (n / q) / 2).
  { rewrite (Z.mul_comm 2 q), Z.div_div by lia. reflexivity. }
  assert (Hmod : n mod (2 * q) = q * ((n / q) mod 2) + n mod q).
  { rewrite (Z.mul_comm 2 q), Z.rem_mul_r by lia. lia. }
  pose proof (Z.mod_pos_bound n q Hq) as Hr.
  pose proof (Z.div_pos n q Hn Hq) as Hd.
  unfold rec_locates. rewrite Hdiv, Hmod, <- Hm. rewrite <- Hm in Hd.
  destruct mrs as [m r s]; simpl in Hm, Hl, Hd.
  simpl (shr_m {| shr_m := m; shr_r := r; shr_s := s |}). clear Hm Hdiv Hmod.
  set (r0 := n mod q) in *. clearbody r0.
  assert (Hs : orb r s = negb (r0 =? 0)).
  { unfold loc_of in Hl. destruct (Z.eqb_spec r0 0); destruct r, s; simpl in *; congruence. }
  clear Hl.
  assert (Hpar : exists h b, m = 2 * h + b /\ (b = 0 \/ b = 1) /\
            shr_m (shr_1 {| shr_m := m; shr_r := r; shr_s := s |}) = h /\
            loc_of_shr_record (shr_1 {| shr_m := m; shr_r := r; shr_s := s |}) =
            loc_of_shr_record {| shr_m := h; shr_r := (b =? 1); shr_s := orb r s |}).
  { destruct m as [| [p | p |] |]; [ | | | | lia ].
    - exists 0, 0. simpl. destruct (orb r s); auto.
    - exists (Z.pos p), 1. rewrite Pos2Z.inj_xI. simpl. destruct (orb r s); auto.
    - exists (Z.pos p), 0. rewrite Pos2Z.inj_xO. simpl. destruct (orb r s); auto.
    - exists 0, 1. simpl. destruct (orb r s); auto. }
  destruct Hpar as (h & b & Hmh & Hb & -> & ->). rewrite Hs. subst m.
  assert (Hh : (2 * h + b) / 2 = h) by (Z.div_mod_to_equations; lia).
  assert (Hb2 : (2 * h + b) mod 2 = b) by (Z.div_mod_to_equations; lia).
  rewrite Hh, Hb2.
  split; [reflexivity |].
  unfold loc_of.
  destruct Hb as [-> | ->]; simpl Z.eqb;
   destruct (Z.eqb_spec r0 0) as [E0 | E0]; simpl negb; simpl loc_of_shr_record.
  all: repeat match goal with
       | |- context [?a =? 0] => destruct (Z.eqb_spec a 0); try lia
       | |- context [?a ?= ?b] => destruct (Z.compare_spec a b); try lia
       end.
  all: try reflexivity.
Qed.

(** A right shift by [p] bits, which [iter_pos] carries out bit by bit. *)
Lemma iter_shr_1_locates (n : Z) (p : positive) :
  0 <= n -> forall q mrs, 0 < q -> rec_locates n q mrs ->
  rec_locates n (q * 2 ^ Z.pos p) (SpecFloat.iter_pos shr_1 p mrs).
Proof.
  intros Hn. induction p as [p IH | p IH |]; intros q mrs Hq H; simpl SpecFloat.iter_pos.
  - replace (q * 2 ^ Z.pos p~1) with (2 * q * 2 ^ Z.pos p * 2 ^ Z.pos p).
    + apply IH; [ | apply IH; [lia | now apply shr_1_locates] ].
      pose proof (Z.pow_pos_nonneg 2 (Z.pos p)). lia.
    + rewrite Pos2Z.inj_xI, Z.pow_add_r, Z.pow_twice_r by lia. ring.
  - replace (q * 2 ^ Z.pos p~0) with (q * 2 ^ Z.pos p * 2 ^ Z.pos p).
    + apply IH; [ | now apply IH ].
      pose proof (Z.pow_pos_nonneg 2 (Z.pos p)). lia.
    + change (Z.pos p~0) with (2 * Z.pos p). rewrite Z.pow_twice_r. ring.
  - replace (q * 2 ^ 1) with (2 * q) by lia. now apply shr_1_locates.
Qed.

Lemma shr_locates (n q : Z) (mrs : shr_record) (e k : Z) :
  0 <= n -> 0 < q -> 0 <= k -> rec_locates n q mrs ->
  rec_locates n (q * 2 ^ k) (fst (shr mrs e k)) /\ snd (shr mrs e k) = e + k.
Proof.
  intros Hn Hq Hk H. destruct k as [| p | p]; simpl; [ | | lia ].
  - rewrite Z.mul_1_r, Z.add_0_r. auto.
  - split; [ now apply iter_shr_1_locates | reflexivity ].
Qed.

Lemma locates_of_loc (n q m : Z) (l : location) :
  m = n / q -> l = loc_of (n mod q) q ->
  rec_locates n q (shr_record_of_loc m l).
Proof.
  intros -> ->. unfold rec_locates, loc_of.
  destruct (_ =? 0); [ simpl; auto | ]. destruct (_ ?= _); simpl; auto.
Qed.

(** Rounding a fraction to the nearest integer, ties to even, is monotone in
    the numerator. *)
Lemma round_nearest_even_mono (n1 n2 q : Z) :
  0 < q -> n1 <= n2 ->
  round_nearest_even (n1 / q) (loc_of (n1 mod q) q) <=
  round_nearest_even (n2 / q) (loc_of (n2 mod q) q).
Proof.
  intros Hq Hn.
  pose proof (Z.div_le_mono n1 n2 q Hq Hn) as Hd.
  pose proof (Z.div_mod n1 q ltac:(lia)) as E1.
  pose proof (Z.div_mod n2 q ltac:(lia)) as E2.
  pose proof (Z.mod_pos_bound n1 q Hq) as B1.
  pose proof (Z.mod_pos_bound n2 q Hq) as B2.
  set (a1 := n1 / q) in *. set (a2 := n2 / q) in *.
  set (r1 := n1 mod q) in *. set (r2 := n2 mod q) in *.
  clearbody a1 a2 r1 r2.
  assert (Hcase : a1 < a2 \/ (a1 = a2 /\ r1 <= r2)) by nia.
  unfold loc_of, round_nearest_even.
  destruct (Z.eqb_spec r1 0), (Z.eqb_spec r2 0);
  repeat match goal with
         | |- context [?a ?= ?b] => destruct (Z.compare_spec a b)
         | |- context [Z.even ?a] => destruct (Z.even a) eqn:?
         end; try lia.
  all: destruct Hcase as [? | [-> ?]]; try lia; congruence.
Qed.

(** In the normal range the exponent of a result is its magnitude less the
    precision ([emin] is -1074). *)
Lemma fexp_normal (x : Z) : -1074 <= x - prec -> fexp prec emax x = x - prec.
Proof. unfold fexp, emin, prec, emax. lia. Qed.

Lemma Zdigits2_bounds (m : Z) :
  0 < m -> 2 ^ (Zdigits2 m - 1) <= m < 2 ^ Zdigits2 m.
Proof. destruct m as [| p | p]; try lia. intros _. apply digits2_pos_bounds. Qed.

Lemma Zdigits2_unique (m d : Z) :
  2 ^ (d - 1) <= m < 2 ^ d -> 0 < d -> Zdigits2 m = d.
Proof.
  intros [Hlo Hhi] Hd.
  assert (Hm : 0 < m) by (pose proof (Z.pow_pos_nonneg 2 (d - 1)); lia).
  destruct (Zdigits2_bounds m Hm) as [Blo Bhi].
  assert (Hdm : 0 < Zdigits2 m) by (destruct m; simpl; lia).
  destruct (Z.lt_trichotomy (Zdigits2 m) d) as [Hlt | [Heq | Hgt]]; [ | exact Heq | ].
  - pose proof (Z.pow_le_mono_r 2 (Zdigits2 m) (d - 1)). lia.
  - pose proof (Z.pow_le_mono_r 2 d (Zdigits2 m - 1)). lia.
Qed.

Lemma round_nearest_even_bounds (m : Z) (l : location) :
  m <= round_nearest_even m l <= m + 1.
Proof. destruct l as [| []]; simpl; try destruct (Z.even m); lia. Qed.

Lemma div_pow2_bounds (m d k : Z) :
  0 <= k -> k < d -> 2 ^ (d - 1) <= m < 2 ^ d ->
  2 ^ (d - k - 1) <= m / 2 ^ k < 2 ^ (d - k).
Proof.
  intros Hk Hd [Hlo Hhi].
  assert (Hp : 0 < 2 ^ k) by (apply Z.pow_pos_nonneg; lia).
  split.
  - apply Z.div_le_lower_bound; [lia |].
    rewrite <- Z.pow_add_r by lia. replace (k + (d - k - 1)) with (d - 1) by lia. lia.
  - apply Z.div_lt_upper_bound; [lia |].
    rewrite <- Z.pow_add_r by lia. replace (k + (d - k)) with d by lia. lia.
Qed.

(** What [binary_round_aux] returns when it is given the quotient [n / q] with
    at least 53 bits, the location of the remainder, and a magnitude in the
    normal range: [n / q] is shifted down to 53 bits, rounded to nearest, and
    renormalised if the rounding carried into a 54th bit. *)
Lemma binary_round_aux_spec (s : bool) (m e : Z) (l : location) (n q : Z) :
  0 < q -> 0 <= n -> m = n / q -> l = loc_of (n mod q) q ->
  prec <= Zdigits2 m ->
  -1074 <= Zdigits2 m + e - prec -> Zdigits2 m + e <= 1023 ->
  let k := Zdigits2 m - prec in
  2 ^ (prec - 1) <= n / (q * 2 ^ k) < 2 ^ prec /\
  binary_round_aux prec emax s m e l =
    S754_finite s (Z.to_pos (fst (round_pos n (q * 2 ^ k))))
                (e + k + snd (round_pos n (q * 2 ^ k))).
Proof.
  intros Hq Hn Hm Hl Hd Hlo Hhi k.
  assert (Hk : 0 <= k) by (unfold k; lia).
  assert (Hmpos : 0 < m).
  { pose proof (Z.div_pos n q Hn Hq). destruct m; simpl in Hd; unfold prec in Hd; lia. }
  assert (Hmk : 2 ^ (prec - 1) <= n / (q * 2 ^ k) < 2 ^ prec).
  { rewrite <- Z.div_div, <- Hm by (try apply Z.pow_pos_nonneg; lia).
    pose proof (div_pow2_bounds m (Zdigits2 m) k Hk ltac:(unfold k, prec; lia)
                  (Zdigits2_bounds m Hmpos)) as B.
    replace (Zdigits2 m - k - 1) with (prec - 1) in B by (unfold k; lia).
    replace (Zdigits2 m - k) with prec in B by (unfold k; lia). exact B. }
  split; [exact Hmk |].
  unfold binary_round_aux.
  unfold shr_fexp at 1. rewrite fexp_normal by lia.
  replace (Zdigits2 m + e - prec - e) with k by (unfold k; lia).
  destruct (shr_locates n q (shr_record_of_loc m l) e k Hn Hq Hk
              (locates_of_loc n q m l Hm Hl)) as [[Hm' Hl'] He'].
  destruct (shr (shr_record_of_loc m l) e k) as [mrs' e']. simpl in Hm', Hl', He'. subst e'.
  rewrite Hm', Hl'.
  unfold round_pos.
  pose proof (round_nearest_even_bounds (n / (q * 2 ^ k))
                (loc_of (n mod (q * 2 ^ k)) (q * 2 ^ k))) as HB.
  set (m2 := round_nearest_even _ _) in *. clearbody m2.
  unfold shr_fexp.
  destruct (Z.ltb_spec m2 (2 ^ prec)) as [Hlt | Hge]; simpl fst; simpl snd.
  - assert (Hd2 : Zdigits2 m2 = prec) by (apply Zdigits2_unique; unfold prec in *; lia).
    rewrite Hd2, fexp_normal by (unfold prec in *; lia).
    replace (prec + (e + k) - prec - (e + k)) with 0 by lia. simpl shr. simpl shr_m.
    destruct m2 as [| p2 | p2]; try (unfold prec in *; lia).
    replace (e + k + 0) with (e + k) by lia.
    replace (e + k <=? emax - prec) with true; [reflexivity |].
    symmetry. apply Z.leb_le. unfold k, emax, prec in *. lia.
  - assert (Hm2 : m2 = 2 ^ prec) by lia. subst m2.
    change (Zdigits2 (2 ^ prec)) with (prec + 1).
    rewrite fexp_normal by (unfold prec in *; lia).
    replace (prec + 1 + (e + k) - prec - (e + k)) with 1 by lia.
    change (shr (shr_record_of_loc (2 ^ prec) loc_Exact) (e + k) 1)
      with ({| shr_m := 2 ^ (prec - 1); shr_r := false; shr_s := false |}, e + k + 1).
    cbv beta iota. change (shr_m {| shr_m := 2 ^ (prec - 1); shr_r := false; shr_s := false |})
      with (Z.pos (Z.to_pos (2 ^ (prec - 1)))).
    cbv beta iota.
    replace (e + k + 1 <=? emax - prec) with true; [reflexivity |].
    symmetry. apply Z.leb_le. unfold k, emax, prec in *. lia.
Qed.

(** Positive floats in normal form compare by exponent, then by mantissa. *)
Lemma SFleb_pos_finite (m1 m2 : positive) (e1 e2 : Z) :
  e1 < e2 \/ (e1 = e2 /\ Z.pos m1 <= Z.pos m2) ->
  SFleb (S754_finite false m1 e1) (S754_finite false m2 e2) = true.
Proof.
  intros H. unfold SFleb, SFcompare.
  destruct (Z.compare_spec e1 e2) as [He | He | He]; try reflexivity; try lia.
  destruct H as [H | [_ H]]; [lia |].
  change (Pos.compare_cont Eq m1 m2) with (Pos.compare m1 m2).
  destruct (Pos.compare_spec m1 m2); try reflexivity. lia.
Qed.

Lemma round_pos_bounds (n q : Z) :
  2 ^ (prec - 1) <= n / q < 2 ^ prec ->
  let r := round_pos n q in
  2 ^ (prec - 1) <= fst r < 2 ^ prec /\ 0 <= snd r <= 1 /\
  (snd r = 1 -> fst r = 2 ^ (prec - 1)).
Proof.
  intros H. unfold round_pos.
  pose proof (round_nearest_even_bounds (n / q) (loc_of (n mod q) q)) as HB.
  destruct (Z.ltb_spec (round_nearest_even (n / q) (loc_of (n mod q) q)) (2 ^ prec));
    simpl; unfold prec in *; lia.
Qed.

(** The heart of the matter: rounding is monotone in the exact value, here
    [n1 / d <= n2 / d] counted in units of [2^e]. *)
Lemma round_pos_mono (d n1 n2 t1 t2 e : Z) :
  0 < d -> 0 <= t1 -> 0 <= t2 -> n1 <= n2 ->
  2 ^ (prec - 1) <= n1 / (d * 2 ^ t1) < 2 ^ prec ->
  2 ^ (prec - 1) <= n2 / (d * 2 ^ t2) < 2 ^ prec ->
  SFleb (S754_finite false (Z.to_pos (fst (round_pos n1 (d * 2 ^ t1))))
                     (e + t1 + snd (round_pos n1 (d * 2 ^ t1))))
        (S754_finite false (Z.to_pos (fst (round_pos n2 (d * 2 ^ t2))))
                     (e + t2 + snd (round_pos n2 (d * 2 ^ t2)))) = true.
Proof.
  intros Hd Ht1 Ht2 Hn B1 B2.
  assert (Hp1 : 0 < 2 ^ t1) by (apply Z.pow_pos_nonneg; lia).
  assert (Hp2 : 0 < 2 ^ t2) by (apply Z.pow_pos_nonneg; lia).
  assert (Hq1 : 0 < d * 2 ^ t1) by nia.
  assert (Hq2 : 0 < d * 2 ^ t2) by nia.
  assert (Ht : t1 <= t2).
  { destruct (Z.le_gt_cases t1 t2) as [? | Hgt]; [assumption | exfalso].
    pose proof (Z.mul_div_le n1 _ Hq1) as L1.
    pose proof (Z.mul_succ_div_gt n2 _ Hq2) as U2.
    assert (Hpow : 2 * 2 ^ t2 <= 2 ^ t1).
    { rewrite <- Z.pow_succ_r by lia. apply Z.pow_le_mono_r; lia. }
    unfold prec in *. nia. }
  pose proof (round_pos_bounds _ _ B1) as (M1 & C1 & X1).
  pose proof (round_pos_bounds _ _ B2) as (M2 & C2 & X2).
  apply SFleb_pos_finite.
  rewrite !Z2Pos.id by (unfold prec in *; lia).
  destruct (Z.eq_dec t1 t2) as [-> | Hne].
  - pose proof (round_nearest_even_mono n1 n2 _ Hq2 Hn) as Hr.
    revert M1 C1 X1 M2 C2 X2. unfold round_pos.
    repeat match goal with
           | |- context [?a <? ?b] => destruct (Z.ltb_spec a b)
           end; simpl; unfold prec in *; intros; lia.
  - unfold prec in *. lia.
Qed.

Lemma Zdigits2_range (m a b : Z) :
  0 <= a -> 2 ^ a <= m < 2 ^ b -> a + 1 <= Zdigits2 m <= b.
Proof.
  intros Ha [Hlo Hhi].
  assert (Hm : 0 < m) by (pose proof (Z.pow_pos_nonneg 2 a); lia).
  destruct (Zdigits2_bounds m Hm) as [Blo Bhi].
  assert (Hdm : 0 < Zdigits2 m) by (destruct m; simpl; lia).
  split.
  - destruct (Z.le_gt_cases (a + 1) (Zdigits2 m)) as [? | Hgt]; [assumption | exfalso].
    pose proof (Z.pow_le_mono_r 2 (Zdigits2 m) a). lia.
  - destruct (Z.le_gt_cases (Zdigits2 m) b) as [? | Hgt]; [assumption | exfalso].
    assert (0 <= b).
    { destruct (Z.le_gt_cases 0 b); [assumption |]. rewrite Z.pow_neg_r in Hhi; lia. }
    pose proof (Z.pow_le_mono_r 2 b (Zdigits2 m - 1)). lia.
Qed.

Lemma SFleb_pos_finite_inv (m1 m2 : positive) (e1 e2 : Z) :
  SFleb (S754_finite false m1 e1) (S754_finite false m2 e2) = true ->
  e1 < e2 \/ (e1 = e2 /\ Z.pos m1 <= Z.pos m2).
Proof.
  unfold SFleb, SFcompare.
  destruct (Z.compare_spec e1 e2) as [He | He | He]; try discriminate; try lia.
  change (Pos.compare_cont Eq m1 m2) with (Pos.compare m1 m2).
  destruct (Pos.compare_spec m1 m2); try discriminate; intros _; right; lia.
Qed.
Lemma binary_round_aux_normal (s : bool) (m e : Z) (l : location) (n q : Z) :
  0 < q -> 0 <= n -> m = n / q -> l = loc_of (n mod q) q ->
  prec <= Zdigits2 m ->
  -1074 <= Zdigits2 m + e - prec -> Zdigits2 m + e <= 1023 ->
  normal s (Zdigits2 m + e - prec) (Zdigits2 m + e - prec + 1)
         (binary_round_aux prec emax s m e l).
Proof.
  intros Hq Hn Hm Hl Hd Hlo Hhi.
  destruct (binary_round_aux_spec s m e l n q Hq Hn Hm Hl Hd Hlo Hhi) as [B ->].
  pose proof (round_pos_bounds _ _ B) as (M & C & _).
  eexists _, _. split; [reflexivity |]. split; [ | lia ].
  rewrite Z2Pos.id by (unfold prec in *; lia).
  apply Zdigits2_unique; unfold prec in *; [ exact M | lia ].
Qed.

(** [binary_round_aux] is monotone in the exact value it rounds: two inputs
    that stand for [n1 / d * 2^b <= n2 / d * 2^b] give ordered floats. *)
Lemma binary_round_aux_mono (d b : Z) (m1 e1 : Z) (l1 : location) (n1 : Z)
      (m2 e2 : Z) (l2 : location) (n2 : Z) :
  0 < d -> b <= e1 -> b <= e2 -> 0 <= n1 -> n1 <= n2 ->
  m1 = n1 / (d * 2 ^ (e1 - b)) ->
  l1 = loc_of (n1 mod (d * 2 ^ (e1 - b))) (d * 2 ^ (e1 - b)) ->
  m2 = n2 / (d * 2 ^ (e2 - b)) ->
  l2 = loc_of (n2 mod (d * 2 ^ (e2 - b))) (d * 2 ^ (e2 - b)) ->
  prec <= Zdigits2 m1 -> prec <= Zdigits2 m2 ->
  -1074 <= Zdigits2 m1 + e1 - prec -> Zdigits2 m1 + e1 <= 1023 ->
  -1074 <= Zdigits2 m2 + e2 - prec -> Zdigits2 m2 + e2 <= 1023 ->
  SFleb (binary_round_aux prec emax false m1 e1 l1)
        (binary_round_aux prec emax false m2 e2 l2) = true.
Proof.
  intros Hd Hb1 Hb2 Hn1 Hn Hm1 Hl1 Hm2 Hl2 Hd1 Hd2 Hlo1 Hhi1 Hlo2 Hhi2.
  assert (Hq1 : 0 < d * 2 ^ (e1 - b)).
  { pose proof (Z.pow_pos_nonneg 2 (e1 - b)). nia. }
  assert (Hq2 : 0 < d * 2 ^ (e2 - b)).
  { pose proof (Z.pow_pos_nonneg 2 (e2 - b)). nia. }
  destruct (binary_round_aux_spec false m1 e1 l1 n1 _ Hq1 Hn1 Hm1 Hl1 Hd1 Hlo1 Hhi1) as [B1 ->].
  destruct (binary_round_aux_spec false m2 e2 l2 n2 _ Hq2 ltac:(lia) Hm2 Hl2 Hd2 Hlo2 Hhi2)
    as [B2 ->].
  revert B1 B2.
  rewrite <- !Z.mul_assoc, <- !Z.pow_add_r by lia.
  set (t1 := e1 - b + (Zdigits2 m1 - prec)). set (t2 := e2 - b + (Zdigits2 m2 - prec)).
  intros B1 B2.
  replace (e1 + (Zdigits2 m1 - prec)) with (b + t1) by (unfold t1; lia).
  replace (e2 + (Zdigits2 m2 - prec)) with (b + t2) by (unfold t2; lia).
  apply round_pos_mono; unfold t1, t2; try lia; assumption.
Qed.

(** Ordered normal floats have ordered values, counted in units of [2^b]. *)
Lemma normal_le_scaled (m1 m2 : positive) (e1 e2 b : Z) :
  Zdigits2 (Z.pos m1) = prec -> Zdigits2 (Z.pos m2) = prec ->
  b <= e1 -> b <= e2 ->
  e1 < e2 \/ (e1 = e2 /\ Z.pos m1 <= Z.pos m2) ->
  Z.pos m1 * 2 ^ (e1 - b) <= Z.pos m2 * 2 ^ (e2 - b).
Proof.
  intros Hm1 Hm2 Hb1 Hb2 Hle.
  pose proof (Zdigits2_bounds (Z.pos m1) ltac:(lia)) as Bm1. rewrite Hm1 in Bm1.
  pose proof (Zdigits2_bounds (Z.pos m2) ltac:(lia)) as Bm2. rewrite Hm2 in Bm2.
  assert (P1 : 0 < 2 ^ (e1 - b)) by (apply Z.pow_pos_nonneg; lia).
  assert (P2 : 0 < 2 ^ (e2 - b)) by (apply Z.pow_pos_nonneg; lia).
  destruct Hle as [Hlt | [-> Hle]]; [ | apply Z.mul_le_mono_nonneg_r; lia ].
  assert (Hpow : 2 * 2 ^ (e1 - b) <= 2 ^ (e2 - b)).
  { rewrite <- Z.pow_succ_r by lia. apply Z.pow_le_mono_r; lia. }
  unfold prec in *. change (2 ^ 53) with (2 * 2 ^ (53 - 1)) in Bm1.
  set (a := 2 ^ (53 - 1)) in *. clearbody a.
  apply Z.le_trans with (2 * a * 2 ^ (e1 - b)); [nia |].
  apply Z.le_trans with (a * 2 ^ (e2 - b)); nia.
Qed.

Lemma mul_digits (m c : positive) :
  Zdigits2 (Z.pos m) = prec -> Zdigits2 (Z.pos c) = prec ->
  2 * prec - 1 <= Zdigits2 (Z.pos (m * c)) <= 2 * prec.
Proof.
  intros Hm Hc.
  pose proof (Zdigits2_bounds (Z.pos m) ltac:(lia)) as Bm.
  pose proof (Zdigits2_bounds (Z.pos c) ltac:(lia)) as Bc.
  rewrite Hm in Bm. rewrite Hc in Bc.
  pose proof (Zdigits2_range (Z.pos (m * c)) (2 * prec - 2) (2 * prec)) as R.
  rewrite Pos2Z.inj_mul in *. unfold prec in *.
  change (2 ^ (2 * 53 - 2)) with (2 ^ (53 - 1) * 2 ^ (53 - 1)) in R.
  change (2 ^ (2 * 53)) with (2 ^ 53 * 2 ^ 53) in R.
  assert (2 ^ (53 - 1) * 2 ^ (53 - 1) <= Z.pos m * Z.pos c < 2 ^ 53 * 2 ^ 53) by nia.
  lia.
Qed.

Section Mul.
Variables (c : positive) (ec : Z).
Hypothesis Hc : Zdigits2 (Z.pos c) = prec.

Lemma SFmul_normal (s : bool) (lo hi : Z) (f : spec_float) :
  normal s lo hi f -> -1126 <= lo + ec -> hi + ec <= 917 ->
  normal s (lo + ec + prec - 1) (hi + ec + prec + 1)
         (SFmul prec emax f (S754_finite false c ec)).
Proof.
  intros (m & e & -> & Hm & He) Hlo Hhi. simpl SFmul. rewrite xorb_false_r.
  pose proof (mul_digits m c Hm Hc) as Hd.
  assert (N : normal s (Zdigits2 (Z.pos (m * c)) + (e + ec) - prec)
                (Zdigits2 (Z.pos (m * c)) + (e + ec) - prec + 1)
                (binary_round_aux prec emax s (Z.pos (m * c)) (e + ec) loc_Exact)).
  { apply (binary_round_aux_normal s _ _ _ (Z.pos (m * c)) 1); unfold prec in *; try lia.
    - now rewrite Z.div_1_r.
    - now rewrite Z.mod_1_r. }
  destruct N as (mo & eo & -> & Hmo & Heo).
  exists mo, eo. split; [reflexivity |]. split; [assumption |]. unfold prec in *. lia.
Qed.

Lemma SFmul_mono (lo hi : Z) (f1 f2 : spec_float) :
  normal false lo hi f1 -> normal false lo hi f2 ->
  -1126 <= lo + ec -> hi + ec <= 917 ->
  SFleb f1 f2 = true ->
  SFleb (SFmul prec emax f1 (S754_finite false c ec))
        (SFmul prec emax f2 (S754_finite false c ec)) = true.
Proof.
  intros (m1 & e1 & -> & Hm1 & He1) (m2 & e2 & -> & Hm2 & He2) Hlo Hhi Hle.
  apply SFleb_pos_finite_inv in Hle. simpl SFmul.
  pose proof (mul_digits m1 c Hm1 Hc) as Hd1.
  pose proof (mul_digits m2 c Hm2 Hc) as Hd2.
  assert (P1 : 0 < 2 ^ (e1 + ec - (lo + ec))) by (apply Z.pow_pos_nonneg; lia).
  assert (P2 : 0 < 2 ^ (e2 + ec - (lo + ec))) by (apply Z.pow_pos_nonneg; lia).
  assert (Hn1 : 0 <= Z.pos (m1 * c) * 2 ^ (e1 + ec - (lo + ec))) by lia.
  assert (Hn : Z.pos (m1 * c) * 2 ^ (e1 + ec - (lo + ec)) <=
               Z.pos (m2 * c) * 2 ^ (e2 + ec - (lo + ec))).
  { rewrite !Pos2Z.inj_mul.
    rewrite <- !(Z.mul_assoc _ (Z.pos c)), !(Z.mul_comm (Z.pos c)), !Z.mul_assoc.
    apply Z.mul_le_mono_nonneg_r; [lia |].
    replace (e1 + ec - (lo + ec)) with (e1 - lo) by lia.
    replace (e2 + ec - (lo + ec)) with (e2 - lo) by lia.
    apply normal_le_scaled; try assumption; lia. }
  apply (binary_round_aux_mono 1 (lo + ec) _ _ _
           (Z.pos (m1 * c) * 2 ^ (e1 + ec - (lo + ec))) _ _ _
           (Z.pos (m2 * c) * 2 ^ (e2 + ec - (lo + ec))));
    try assumption; unfold prec in *; try lia.
  - rewrite Z.mul_1_l, Z.div_mul by lia. reflexivity.
  - rewrite Z.mul_1_l, Z.mod_mul by lia. reflexivity.
  - rewrite Z.mul_1_l, Z.div_mul by lia. reflexivity.
  - rewrite Z.mul_1_l, Z.mod_mul by lia. reflexivity.
Qed.

End Mul.

Lemma new_location_loc_of (nb r : Z) :
  0 < nb -> 0 <= r < nb -> new_location nb r = loc_of r nb.
Proof.
  intros Hnb Hr. unfold new_location, new_location_even, new_location_odd, loc_of.
  destruct (Z.even nb) eqn:Hev; [reflexivity |].
  destruct (Z.eqb_spec r 0); [reflexivity |]. f_equal.
  assert (Hodd : Z.odd nb = true) by (rewrite <- Z.negb_even, Hev; reflexivity).
  apply Z.odd_spec in Hodd. destruct Hodd as [h ->].
  destruct (Z.compare_spec (2 * r + 1) (2 * h + 1)), (Z.compare_spec (2 * r) (2 * h + 1));
    try reflexivity; lia.
Qed.

Lemma loc_of_scale (r q c : Z) : 0 < c -> loc_of (r * c) (q * c) = loc_of r q.
Proof.
  intros Hc. unfold loc_of.
  destruct (Z.eqb_spec r 0), (Z.eqb_spec (r * c) 0); try reflexivity; try nia.
  f_equal.
  destruct (Z.compare_spec (2 * (r * c)) (q * c)), (Z.compare_spec (2 * r) q);
    try reflexivity; nia.
Qed.

Section Div.
Variables (c : positive) (ec : Z).
Hypothesis Hc : Zdigits2 (Z.pos c) = prec.

(** Dividing by a normal constant: the dividend is shifted left by 53 bits and
    divided; the location is that of the remainder. *)
Lemma SFdiv_core_binary_normal (m : positive) (e : Z) :
  Zdigits2 (Z.pos m) = prec -> -1021 <= e - ec ->
  SFdiv_core_binary prec emax (Z.pos m) e (Z.pos c) ec =
    (Z.pos m * 2 ^ prec / Z.pos c, e - ec - prec,
     loc_of ((Z.pos m * 2 ^ prec) mod Z.pos c) (Z.pos c)).
Proof.
  intros Hm He. unfold SFdiv_core_binary. rewrite Hm, Hc.
  rewrite fexp_normal by (unfold prec; lia).
  replace (Z.min (prec + e - (prec + ec) - prec) (e - ec)) with (e - ec - prec)
    by (unfold prec; lia).
  replace (e - ec - (e - ec - prec)) with prec by lia.
  change (match prec with 0 => Z.pos m | Z.pos _ => Z.shiftl (Z.pos m) prec | Z.neg _ => 0 end)
    with (Z.shiftl (Z.pos m) prec).
  rewrite Z.shiftl_mul_pow2 by (unfold prec; lia).
  unfold Z.div, Z.modulo.
  pose proof (Z.mod_pos_bound (Z.pos m * 2 ^ prec) (Z.pos c) ltac:(lia)) as Hr.
  unfold Z.modulo in Hr.
  destruct (Z.div_eucl (Z.pos m * 2 ^ prec) (Z.pos c)) as [q r].
  rewrite new_location_loc_of; [reflexivity | lia | exact Hr].
Qed.

Lemma div_digits (m : positive) :
  Zdigits2 (Z.pos m) = prec ->
  prec <= Zdigits2 (Z.pos m * 2 ^ prec / Z.pos c) <= prec + 1.
Proof.
  intros Hm.
  pose proof (Zdigits2_bounds (Z.pos m) ltac:(lia)) as Bm. rewrite Hm in Bm.
  pose proof (Zdigits2_bounds (Z.pos c) ltac:(lia)) as Bc. rewrite Hc in Bc.
  pose proof (Zdigits2_range (Z.pos m * 2 ^ prec / Z.pos c) (prec - 1) (prec + 1)) as R.
  unfold prec in *.
  assert (2 ^ (53 - 1) <= Z.pos m * 2 ^ 53 / Z.pos c < 2 ^ (53 + 1)); [ | lia ].
  change (2 ^ (53 + 1)) with (2 * 2 ^ 53). change (2 ^ 53) with (2 * 2 ^ (53 - 1)) in *.
  set (a := 2 ^ (53 - 1)) in *. assert (0 < a) by reflexivity. clearbody a.
  split.
  - apply Z.div_le_lower_bound; [lia | nia].
  - apply Z.div_lt_upper_bound; [lia | nia].
Qed.

Lemma SFdiv_round (s : bool) (m : positive) (e b : Z) :
  Zdigits2 (Z.pos m) = prec -> -1021 <= e - ec -> b <= e - ec - prec ->
  let n := Z.pos m * 2 ^ prec * 2 ^ (e - ec - prec - b) in
  let q := Z.pos c * 2 ^ (e - ec - prec - b) in
  SFdiv prec emax (S754_finite s m e) (S754_finite false c ec) =
    binary_round_aux prec emax s (n / q) (e - ec - prec) (loc_of (n mod q) q).
Proof.
  intros Hm He Hb n q. unfold SFdiv. rewrite SFdiv_core_binary_normal by assumption.
  rewrite xorb_false_r. unfold n, q.
  assert (0 < 2 ^ (e - ec - prec - b)) by (apply Z.pow_pos_nonneg; lia).
  rewrite Z.div_mul_cancel_r, Z.mul_mod_distr_r, loc_of_scale by lia.
  reflexivity.
Qed.

Lemma SFdiv_normal (s : bool) (lo hi : Z) (f : spec_float) :
  normal s lo hi f -> -1021 <= lo - ec -> hi - ec <= 1022 ->
  normal s (lo - ec - prec) (hi - ec - prec + 2)
         (SFdiv prec emax f (S754_finite false c ec)).
Proof.
  intros (m & e & -> & Hm & He) Hlo Hhi.
  rewrite (SFdiv_round s m e (e - ec - prec)) by (try assumption; lia).
  rewrite Z.sub_diag, !Z.mul_1_r.
  pose proof (div_digits m Hm) as Hd.
  assert (N : normal s (Zdigits2 (Z.pos m * 2 ^ prec / Z.pos c) + (e - ec - prec) - prec)
                (Zdigits2 (Z.pos m * 2 ^ prec / Z.pos c) + (e - ec - prec) - prec + 1)
                (binary_round_aux prec emax s (Z.pos m * 2 ^ prec / Z.pos c) (e - ec - prec)
                   (loc_of ((Z.pos m * 2 ^ prec) mod Z.pos c) (Z.pos c)))).
  { apply (binary_round_aux_normal s _ _ _ (Z.pos m * 2 ^ prec) (Z.pos c));
      unfold prec in *; try lia; reflexivity. }
  destruct N as (mo & eo & -> & Hmo & Heo).
  exists mo, eo. split; [reflexivity |]. split; [assumption |]. unfold prec in *. lia.
Qed.

Lemma SFdiv_mono (lo hi : Z) (f1 f2 : spec_float) :
  normal false lo hi f1 -> normal false lo hi f2 ->
  -1021 <= lo - ec -> hi - ec <= 1022 ->
  SFleb f1 f2 = true ->
  SFleb (SFdiv prec emax f1 (S754_finite false c ec))
        (SFdiv prec emax f2 (S754_finite false c ec)) = true.
Proof.
  intros (m1 & e1 & -> & Hm1 & He1) (m2 & e2 & -> & Hm2 & He2) Hlo Hhi Hle.
  apply SFleb_pos_finite_inv in Hle.
  set (b := lo - ec - prec).
  rewrite (SFdiv_round false m1 e1 b), (SFdiv_round false m2 e2 b)
    by (try assumption; unfold b; lia).
  pose proof (div_digits m1 Hm1) as Hd1.
  pose proof (div_digits m2 Hm2) as Hd2.
  assert (P1 : 0 < 2 ^ (e1 - ec - prec - b)) by (apply Z.pow_pos_nonneg; unfold b; lia).
  assert (P2 : 0 < 2 ^ (e2 - ec - prec - b)) by (apply Z.pow_pos_nonneg; unfold b; lia).
  assert (Hn : Z.pos m1 * 2 ^ prec * 2 ^ (e1 - ec - prec - b) <=
               Z.pos m2 * 2 ^ prec * 2 ^ (e2 - ec - prec - b)).
  { rewrite <- !(Z.mul_assoc _ (2 ^ prec)), !(Z.mul_comm (2 ^ prec)), !Z.mul_assoc.
    apply Z.mul_le_mono_nonneg_r; [unfold prec; lia |].
    replace (e1 - ec - prec - b) with (e1 - lo) by (unfold b; lia).
    replace (e2 - ec - prec - b) with (e2 - lo) by (unfold b; lia).
    apply normal_le_scaled; try assumption; lia. }
  assert (Q1 : Z.pos m1 * 2 ^ prec * 2 ^ (e1 - ec - prec - b) / (Z.pos c * 2 ^ (e1 - ec - prec - b))
               = Z.pos m1 * 2 ^ prec / Z.pos c) by (apply Z.div_mul_cancel_r; lia).
  assert (Q2 : Z.pos m2 * 2 ^ prec * 2 ^ (e2 - ec - prec - b) / (Z.pos c * 2 ^ (e2 - ec - prec - b))
               = Z.pos m2 * 2 ^ prec / Z.pos c) by (apply Z.div_mul_cancel_r; lia).
  apply (binary_round_aux_mono (Z.pos c) b _ _ _
           (Z.pos m1 * 2 ^ prec * 2 ^ (e1 - ec - prec - b)) _ _ _
           (Z.pos m2 * 2 ^ prec * 2 ^ (e2 - ec - prec - b)));
    try assumption; rewrite ?Q1, ?Q2; subst b; unfold prec in *; try lia; reflexivity.
Qed.

End Div.

Lemma iter_xO_pow2 (p n : positive) : Z.pos (Pos.iter xO p n) = Z.pos p * 2 ^ Z.pos n.
Proof.
  induction n as [| n IH] using Pos.peano_ind.
  - simpl. lia.
  - rewrite Pos.iter_succ, Pos2Z.inj_xO, IH, Pos2Z.inj_succ, Z.pow_succ_r by lia. ring.
Qed.


(** Converting a positive integer: it is first shifted left to 53 bits when
    it has fewer, then rounded. *)
Lemma binary_round_int (s : bool) (p : positive) :
  binary_round prec emax s p 0 =
  binary_round_aux prec emax s (Z.pos p * 2 ^ int_shift p) (- int_shift p) loc_Exact.
Proof.
  unfold binary_round, int_shift.
  rewrite fexp_normal by (unfold prec; lia).
  unfold shl_align.
  destruct (Z.pos (digits2_pos p) + 0 - prec - 0) as [| k | k] eqn:Hk.
  - replace (Z.max 0 (prec - Z.pos (digits2_pos p))) with 0 by lia.
    rewrite Z.mul_1_r. reflexivity.
  - replace (Z.max 0 (prec - Z.pos (digits2_pos p))) with 0 by lia.
    rewrite Z.mul_1_r. reflexivity.
  - replace (Z.max 0 (prec - Z.pos (digits2_pos p))) with (Z.pos k) by lia.
    rewrite <- iter_xO_pow2. f_equal. lia.
Qed.

Lemma int_digits (p : positive) :
  Zdigits2 (Z.pos p * 2 ^ int_shift p) = Z.pos (digits2_pos p) + int_shift p.
Proof.
  pose proof (digits2_pos_bounds p) as [Blo Bhi].
  assert (Hk : 0 <= int_shift p) by (unfold int_shift; lia).
  assert (0 < 2 ^ int_shift p) by (apply Z.pow_pos_nonneg; lia).
  apply Zdigits2_unique; [ | lia ].
  replace (Z.pos (digits2_pos p) + int_shift p - 1)
    with (Z.pos (digits2_pos p) - 1 + int_shift p) by lia.
  rewrite !Z.pow_add_r by lia. nia.
Qed.


Lemma binary_round_int_normal (s : bool) (p : positive) :
  Z.pos p < 2 ^ 64 ->
  normal s (-52) 12 (binary_round prec emax s p 0).
Proof.
  intros Hp. rewrite binary_round_int.
  pose proof (int_digits p) as Hd.
  assert (Hk : 0 <= int_shift p) by (unfold int_shift; lia).
  assert (Hdp : Z.pos (digits2_pos p) <= 64).
  { pose proof (Zdigits2_range (Z.pos p) 0 64 ltac:(lia)) as R. simpl in R. lia. }
  assert (N : normal s (Zdigits2 (Z.pos p * 2 ^ int_shift p) + - int_shift p - prec)
                (Zdigits2 (Z.pos p * 2 ^ int_shift p) + - int_shift p - prec + 1)
                (binary_round_aux prec emax s (Z.pos p * 2 ^ int_shift p) (- int_shift p)
                   loc_Exact)).
  { apply (binary_round_aux_normal s _ _ _ (Z.pos p * 2 ^ int_shift p) 1).
    - lia.
    - apply Z.mul_nonneg_nonneg; [lia | apply Z.pow_nonneg; lia].
    - now rewrite Z.div_1_r.
    - now rewrite Z.mod_1_r.
    - rewrite Hd. unfold int_shift. lia.
    - rewrite Hd. unfold prec. lia.
    - rewrite Hd. lia. }
  destruct N as (mo & eo & -> & Hmo & Heo). rewrite Hd in Heo.
  exists mo, eo. split; [reflexivity |]. split; [assumption |]. unfold prec in *. lia.
Qed.

Lemma binary_round_int_mono (p1 p2 : positive) :
  Z.pos p1 <= Z.pos p2 -> Z.pos p2 < 2 ^ 64 ->
  SFleb (binary_round prec emax false p1 0) (binary_round prec emax false p2 0) = true.
Proof.
  intros Hle Hp. rewrite !binary_round_int.
  pose proof (int_digits p1) as Hd1. pose proof (int_digits p2) as Hd2.
  assert (Hk1 : 0 <= int_shift p1 <= 52) by (unfold int_shift, prec; lia).
  assert (Hk2 : 0 <= int_shift p2 <= 52) by (unfold int_shift, prec; lia).
  assert (Hdp2 : Z.pos (digits2_pos p2) <= 64).
  { pose proof (Zdigits2_range (Z.pos p2) 0 64 ltac:(lia)) as R. simpl in R. lia. }
  assert (Hdp1 : Z.pos (digits2_pos p1) <= 64).
  { pose proof (Zdigits2_range (Z.pos p1) 0 64 ltac:(lia)) as R. simpl in R. lia. }
  assert (E1 : Z.pos p1 * 2 ^ 52 = Z.pos p1 * 2 ^ int_shift p1 * (1 * 2 ^ (- int_shift p1 - -52))).
  { rewrite Z.mul_1_l, <- Z.mul_assoc, <- Z.pow_add_r by lia. do 2 f_equal. lia. }
  assert (E2 : Z.pos p2 * 2 ^ 52 = Z.pos p2 * 2 ^ int_shift p2 * (1 * 2 ^ (- int_shift p2 - -52))).
  { rewrite Z.mul_1_l, <- Z.mul_assoc, <- Z.pow_add_r by lia. do 2 f_equal. lia. }
  assert (P1 : 0 < 1 * 2 ^ (- int_shift p1 - -52)).
  { pose proof (Z.pow_pos_nonneg 2 (- int_shift p1 - -52)). lia. }
  assert (P2 : 0 < 1 * 2 ^ (- int_shift p2 - -52)).
  { pose proof (Z.pow_pos_nonneg 2 (- int_shift p2 - -52)). lia. }
  apply (binary_round_aux_mono 1 (-52) _ _ _ (Z.pos p1 * 2 ^ 52) _ _ _ (Z.pos p2 * 2 ^ 52)).
  - lia.
  - lia.
  - lia.
  - lia.
  - lia.
  - rewrite E1 at 1. rewrite Z.div_mul by lia. reflexivity.
  - rewrite E1 at 1. rewrite Z.mod_mul by lia. reflexivity.
  - rewrite E2 at 1. rewrite Z.div_mul by lia. reflexivity.
  - rewrite E2 at 1. rewrite Z.mod_mul by lia. reflexivity.
  - rewrite Hd1. unfold int_shift. lia.
  - rewrite Hd2. unfold int_shift. lia.
  - rewrite Hd1. unfold prec. lia.
  - rewrite Hd1. lia.
  - rewrite Hd2. unfold prec. lia.
  - rewrite Hd2. lia.
Qed.

(** ** The Blaze cost of one operation count *)

Lemma of_int_100000 :
  Float64.of_int 100000 = S754_finite false 6871947673600000 (-36).
Proof. reflexivity. Qed.

(** The literal is the correctly rounded quotient of 6 by 100. *)
Lemma lit_0_06_nearest :
  Float64.lit_0_06 = Float64.div (Float64.of_int 6) (Float64.of_int 100).
Proof. reflexivity. Qed.

(** A non-zero integer of at most 64 bits, times 0.06, over 100000: a normal
    float of the integer's sign. *)
Lemma scaled_normal (s : bool) (p : positive) :
  Z.pos p < 2 ^ 64 ->
  normal s (-74) (-6)
    (Float64.div (Float64.mul (binary_round prec emax s p 0) Float64.lit_0_06)
                 (Float64.of_int 100000)).
Proof.
  intros Hp. rewrite of_int_100000.
  pose proof (binary_round_int_normal s p Hp) as N1.
  pose proof (SFmul_normal 8646911284551352 (-57) eq_refl s (-52) 12 _ N1
                ltac:(lia) ltac:(lia)) as N2.
  exact (SFdiv_normal 6871947673600000 (-36) eq_refl s _ _ _ N2
           ltac:(unfold prec; lia) ltac:(unfold prec; lia)).
Qed.

Lemma scaled_mono (p1 p2 : positive) :
  Z.pos p1 <= Z.pos p2 -> Z.pos p2 < 2 ^ 64 ->
  SFleb
    (Float64.div (Float64.mul (binary_round prec emax false p1 0) Float64.lit_0_06)
                 (Float64.of_int 100000))
    (Float64.div (Float64.mul (binary_round prec emax false p2 0) Float64.lit_0_06)
                 (Float64.of_int 100000)) = true.
Proof.
  intros Hle Hp. rewrite of_int_100000.
  pose proof (binary_round_int_normal false p1 ltac:(lia)) as N1.
  pose proof (binary_round_int_normal false p2 Hp) as N2.
  pose proof (SFmul_normal 8646911284551352 (-57) eq_refl false (-52) 12 _ N1
                ltac:(lia) ltac:(lia)) as M1.
  pose proof (SFmul_normal 8646911284551352 (-57) eq_refl false (-52) 12 _ N2
                ltac:(lia) ltac:(lia)) as M2.
  apply (SFdiv_mono 6871947673600000 (-36) eq_refl _ _ _ _ M1 M2);
    try (unfold prec; lia).
  apply (SFmul_mono 8646911284551352 (-57) eq_refl _ _ _ _ N1 N2); try lia.
  now apply binary_round_int_mono.
Qed.

(** The cost is zero up to the threshold (as the [int64] difference sees it)
    and a positive normal float above. *)
Lemma blaze_cost_at_cases (o : Z) :
  (Int64.sub o 50000 <= 0 /\ blaze_cost_at o = Float64.zero) \/
  (0 < Int64.sub o 50000 /\ normal false (-74) (-6) (blaze_cost_at o) /\
   blaze_cost_at o =
     Float64.div (Float64.mul (Float64.of_int (Int64.sub o 50000)) Float64.lit_0_06)
                 (Float64.of_int 100000)).
Proof.
  unfold blaze_cost_at.
  pose proof (wrap_in_range (o - 50000)) as R.
  unfold Int64.in_range, Int64.min_signed, Int64.max_signed in R.
  change (2 ^ (Int64.bits - 1)) with (2 ^ 63) in R. fold (Int64.sub o 50000) in R.
  destruct (Int64.sub o 50000) as [| p | p] eqn:E.
  - left. split; [lia | reflexivity].
  - right. split; [lia |].
    destruct (scaled_normal false p ltac:(lia)) as (m & e & Hf & Hm & He).
    change (Float64.of_int (Z.pos p)) with (binary_round prec emax false p 0).
    rewrite Hf. split; [ | reflexivity ]. exists m, e. auto.
  - left. split; [lia |].
    destruct (scaled_normal true p ltac:(lia)) as (m & e & Hf & _).
    change (Float64.of_int (Z.neg p)) with (binary_round prec emax true p 0).
    rewrite Hf. reflexivity.
Qed.

Lemma blaze_cost_at_mono (o1 o2 : Z) :
  Int64.min_signed + 50000 <= o1 -> o1 <= o2 -> o2 <= Int64.max_signed ->
  Float64.leb (blaze_cost_at o1) (blaze_cost_at o2) = true.
Proof.
  unfold Int64.min_signed, Int64.max_signed.
  change (2 ^ (Int64.bits - 1)) with (2 ^ 63). intros H1 H12 H2.
  assert (W1 : Int64.sub o1 50000 = o1 - 50000).
  { apply wrap_small. unfold Int64.in_range, Int64.min_signed, Int64.max_signed.
    change (2 ^ (Int64.bits - 1)) with (2 ^ 63). lia. }
  assert (W2 : Int64.sub o2 50000 = o2 - 50000).
  { apply wrap_small. unfold Int64.in_range, Int64.min_signed, Int64.max_signed.
    change (2 ^ (Int64.bits - 1)) with (2 ^ 63). lia. }
  unfold Float64.leb.
  destruct (blaze_cost_at_cases o1) as [[S1 ->] | (S1 & N1 & E1)];
    destruct (blaze_cost_at_cases o2) as [[S2 ->] | (S2 & N2 & E2)].
  - reflexivity.
  - destruct N2 as (m & e & -> & _). reflexivity.
  - lia.
  - rewrite E1, E2, W1, W2. rewrite W1 in S1. rewrite W2 in S2.
    destruct (o1 - 50000) as [| p1 | p1] eqn:P1; try lia.
    destruct (o2 - 50000) as [| p2 | p2] eqn:P2; try lia.
    apply scaled_mono; lia.
Qed.

Lemma blaze_cost_at_formula (o : Z) :
  Int64.in_range (o - 50000) -> blaze_cost_at o = blaze_formula o.
Proof.
  intros H. unfold blaze_cost_at, blaze_formula, Int64.sub. now rewrite wrap_small.
Qed.

(** The formula gives 0 below the threshold, however far below. *)
Lemma blaze_formula_below (o : Z) :
  - 2 ^ 64 < o - 50000 -> o <= 50000 -> blaze_formula o = Float64.zero.
Proof.
  intros Hlo Hhi. unfold blaze_formula.
  destruct (o - 50000) as [| p | p] eqn:E; try lia; [reflexivity |].
  destruct (scaled_normal true p ltac:(lia)) as (m & e & Hf & _).
  change (Float64.of_int (Z.neg p)) with (binary_round prec emax true p 0).
  rewrite Hf. reflexivity.
Qed.

(** On an [int64] operation count the code agrees with the formula exactly
    when the difference does not wrap. *)
Lemma blaze_cost_at_formula_iff (o : Z) :
  Int64.in_range o ->
  Int64.in_range (o - 50000) <-> blaze_cost_at o = blaze_formula o.
Proof.
  intros Ho. split; [apply blaze_cost_at_formula |].
  intros E.
  destruct (Z.le_gt_cases Int64.min_signed (o - 50000)) as [Hge | Hlt].
  - unfold Int64.in_range in *. lia.
  - exfalso. revert Ho Hlt. unfold Int64.in_range, Int64.min_signed, Int64.max_signed.
    change (2 ^ (Int64.bits - 1)) with (2 ^ 63). intros Ho Hlt.
    rewrite (blaze_formula_below o) in E by lia.
    assert (W : Int64.sub o 50000 = o - 50000 + 2 ^ 64).
    { unfold Int64.sub, Int64.wrap.
      change (2 ^ (Int64.bits - 1)) with (2 ^ 63). change Int64.modulus with (2 ^ 64).
      replace (o - 50000 + 2 ^ 63) with (o - 50000 + 2 ^ 64 + 2 ^ 63 + -1 * 2 ^ 64) by lia.
      rewrite Z.mod_add by lia. rewrite Z.mod_small; lia. }
    destruct (blaze_cost_at_cases o) as [[S _] | (_ & (m & e & Hf & _) & _)].
    + lia.
    + rewrite Hf in E. discriminate E.
Qed.

Lemma spark_cost_lookup (ops : list Z) (i : nat) (o : Z) :
  ops !! i = Some o ->
  spark_cost_of ops !! i =
    Some (if o <=? 50000 then Float64.zero else Float64.infinity).
Proof. intros H. unfold spark_cost_of. now rewrite list_lookup_fmap, H. Qed.

Lemma blaze_cost_lookup (ops : list Z) (i : nat) (o : Z) :
  ops !! i = Some o -> blaze_cost_of ops !! i = Some (blaze_cost_at o).
Proof. intros H. unfold blaze_cost_of. now rewrite list_lookup_fmap, H. Qed.

(** ** The cost series *)




(** The sign of the count matters only far below zero: for [-2^63], which is
    no operation count, the [int64] difference wraps to [2^63 - 50000] and
    the Blaze cost is about 5.5e12 where the formula gives 0. *)
Lemma blaze_difference_wraps :
  int64_array [- 2 ^ 63] /\
  blaze_cost_of [- 2 ^ 63] !! 0%nat = Some (S754_finite false 5666839779443543 (-10)) /\
  blaze_formula (- 2 ^ 63) = Float64.zero.
Proof.
  split; [ | split; vm_compute; reflexivity ].
  constructor; [ | constructor ].
  unfold Int64.in_range, Int64.min_signed, Int64.max_signed, Int64.bits. simpl. lia.
Qed.

(** C4: the Blaze cost is monotonically non-decreasing in the operation
    count: for indices [i <= j] of an [int64] array of operation counts
    (non-negative numbers) with [operationsRange[i] <= operationsRange[j]],
    [blazeCost[i] <= blazeCost[j]]; [operationsRange = [10000, 100000]] gives
    [blazeCost = [0, 0.03]]. *)
Theorem C4_blaze_cost_monotone :
  (forall (ops : list Z) (i j : nat) (oi oj : Z),
      int64_array ops -> (i <= j)%nat ->
      ops !! i = Some oi -> ops !! j = Some oj ->
      0 <= oi -> oi <= oj ->
      exists ci cj,
        blaze_cost_of ops !! i = Some ci /\ blaze_cost_of ops !! j = Some cj /\
        Float64.leb ci cj = true) /\
  blaze_cost_of [10000; 100000] =
    [Float64.zero; Float64.div (Float64.of_int 3) (Float64.of_int 100)].
Proof.
  split; [ | vm_compute; reflexivity ].
  intros ops i j oi oj Harr _ Hi Hj Hlo Hle.
  exists (blaze_cost_at oi), (blaze_cost_at oj).
  split; [now apply blaze_cost_lookup |]. split; [now apply blaze_cost_lookup |].
  apply blaze_cost_at_mono; try assumption.
  - unfold Int64.min_signed. change (2 ^ (Int64.bits - 1)) with 9223372036854775808. lia.
  - unfold int64_array in Harr. rewrite Forall_lookup in Harr.
    apply (Harr j oj Hj).
Qed.

Lemma C4_blaze_cost_monotone_witness :
  exists ci cj,
    blaze_cost_of operations_range !! 2%nat = Some ci /\
    blaze_cost_of operations_range !! 5%nat = Some cj /\
    Float64.leb ci cj = true.
Proof.
  apply (proj1 C4_blaze_cost_monotone operations_range 2%nat 5%nat 50000 500000).
  - unfold int64_array, operations_range.
    repeat constructor; vm_compute; discriminate.
  - lia.
  - reflexivity.
  - reflexivity.
  - lia.
  - lia.
Defined.

(** ** The run: series, files and standard output *)

(** The summary, run from any state: it cannot fail, and what it writes is
    seven fixed strings. *)
Lemma print_summary_spec (s : State) :
  exists s', print_summary s = Finished s' /\
    v_operations_single_bus s' = v_operations_single_bus s /\
    v_operations_multi_bus s' = v_operations_multi_bus s /\
    v_spark_cost s' = v_spark_cost s /\ v_blaze_cost s' = v_blaze_cost s /\
    saved s' = saved s /\
    stdout s' = stdout s ++ summary_output.
Proof.
  eexists. unfold print_summary, seq, print. simpl.
  repeat split. rewrite <- !app_assoc. reflexivity.
Qed.

(** The three ways a run can end, by what the environment lets it write. *)
Lemma main_first_file_refused (env : Env) :
  can_write env path_scalability = false ->
  exists s, main env init = Raised (OSError path_scalability) s /\
    v_operations_single_bus s = Some operations_single_bus /\
    v_operations_multi_bus s = Some operations_multi_bus /\
    v_spark_cost s = Some spark_cost /\ v_blaze_cost s = Some blaze_cost /\
    saved s = [] /\ stdout s = [].
Proof.
  intros W1. unfold main, seq, savefig. rewrite W1.
  eexists. split; [reflexivity |]. repeat split.
Qed.

Lemma main_second_file_refused (env : Env) :
  can_write env path_scalability = true ->
  can_write env path_optimization = false ->
  exists s, main env init = Raised (OSError path_optimization) s /\
    v_operations_single_bus s = Some operations_single_bus /\
    v_operations_multi_bus s = Some operations_multi_bus /\
    v_spark_cost s = Some spark_cost /\ v_blaze_cost s = Some blaze_cost /\
    saved s = [path_scalability] /\ stdout s = [].
Proof.
  intros W1 W2. unfold main, seq, savefig. rewrite W1. cbn. rewrite W2.
  eexists. split; [reflexivity |]. repeat split.
Qed.

Lemma main_finished (env : Env) :
  can_write env path_scalability = true ->
  can_write env path_optimization = true ->
  exists s, main env init = Finished s /\
    v_operations_single_bus s = Some operations_single_bus /\
    v_operations_multi_bus s = Some operations_multi_bus /\
    v_spark_cost s = Some spark_cost /\ v_blaze_cost s = Some blaze_cost /\
    saved s = [path_scalability; path_optimization] /\
    stdout s = summary_output.
Proof.
  intros W1 W2. unfold main, seq, savefig. rewrite W1. cbn. rewrite W2.
  eexists. split; [reflexivity |]. repeat split.
Qed.

Lemma main_series (env : Env) :
  let s := state_of (main env init) in
  v_operations_single_bus s = Some operations_single_bus /\
  v_operations_multi_bus s = Some operations_multi_bus /\
  v_spark_cost s = Some spark_cost /\ v_blaze_cost s = Some blaze_cost.
Proof.
  destruct (can_write env path_scalability) eqn:W1;
    [ destruct (can_write env path_optimization) eqn:W2 | ].
  - destruct (main_finished env W1 W2) as (s & -> & H1 & H2 & H3 & H4 & _). now simpl.
  - destruct (main_second_file_refused env W1 W2) as (s & -> & H1 & H2 & H3 & H4 & _).
    now simpl.
  - destruct (main_first_file_refused env W1) as (s & -> & H1 & H2 & H3 & H4 & _).
    now simpl.
Qed.

(** C5: the generator is deterministic in its numeric series: two runs, in
    whatever environments, end with the same single-bus, multi-bus, Spark
    and Blaze series, the ones computed from the literal constants. *)
Theorem C5_series_deterministic :
  forall env1 env2 : Env,
    let s1 := state_of (main env1 init) in
    let s2 := state_of (main env2 init) in
    (v_operations_single_bus s1 = v_operations_single_bus s2 /\
     v_operations_multi_bus s1 = v_operations_multi_bus s2 /\
     v_spark_cost s1 = v_spark_cost s2 /\
     v_blaze_cost s1 = v_blaze_cost s2) /\
    (v_operations_single_bus s1 = Some (operations_single_bus_of users) /\
     v_operations_multi_bus s1 = Some (operations_multi_bus_of buses) /\
     v_spark_cost s1 = Some (spark_cost_of operations_range) /\
     v_blaze_cost s1 = Some (blaze_cost_of operations_range)).
Proof.
  intros env1 env2 s1 s2.
  destruct (main_series env1) as (A1 & A2 & A3 & A4).
  destruct (main_series env2) as (B1 & B2 & B3 & B4).
  subst s1 s2. rewrite A1, A2, A3, A4, B1, B2, B3, B4. repeat split.
Qed.

(** C6 (as amended): a run in which both image files can be written puts on
    standard output exactly one confirmation line, then (after an empty line
    and the heading) the five enumerated findings, and no other enumerated
    line; a run in which [plt.savefig] fails, on the first file or on the
    second, ends there with that [OSError] and prints nothing. *)
Theorem C6_summary_on_stdout :
  forall env : Env,
    (can_write env path_scalability = true ->
     can_write env path_optimization = true ->
     exists s, main env init = Finished s /\
       stdout_lines s = confirmation :: "" :: "Key Findings:" :: findings /\
       List.filter is_enumerated (stdout_lines s) = findings /\
       length findings = 5%nat /\
       saved s = [path_scalability; path_optimization]) /\
    (can_write env path_scalability = false ->
     exists s, main env init = Raised (OSError path_scalability) s /\
       stdout s = [] /\ stdout_lines s = [] /\ saved s = []) /\
    (can_write env path_scalability = true ->
     can_write env path_optimization = false ->
     exists s, main env init = Raised (OSError path_optimization) s /\
       stdout s = [] /\ stdout_lines s = [] /\ saved s = [path_scalability]).
Proof.
  intros env. split; [ | split ].
  - intros W1 W2.
    destruct (main_finished env W1 W2) as (s & E & _ & _ & _ & _ & Hs & Ho).
    exists s. split; [exact E |].
    unfold stdout_lines. rewrite Ho. repeat split; assumption.
  - intros W1.
    destruct (main_first_file_refused env W1) as (s & E & _ & _ & _ & _ & Hs & Ho).
    exists s. split; [exact E |].
    unfold stdout_lines. rewrite Ho. repeat split; assumption.
  - intros W1 W2.
    destruct (main_second_file_refused env W1 W2) as (s & E & _ & _ & _ & _ & Hs & Ho).
    exists s. split; [exact E |].
    unfold stdout_lines. rewrite Ho. repeat split; assumption.
Qed.

Lemma C6_summary_on_stdout_witness :
  (exists s, main env_writable init = Finished s /\
     stdout_lines s = confirmation :: "" :: "Key Findings:" :: findings /\
     List.filter is_enumerated (stdout_lines s) = findings /\
     length findings = 5%nat /\
     saved s = [path_scalability; path_optimization]) /\
  (exists s, main env_read_only init = Raised (OSError path_scalability) s /\
     stdout s = [] /\ stdout_lines s = [] /\ saved s = []) /\
  (exists s,
     main {| can_write := fun p => String.eqb p path_scalability |} init =
       Raised (OSError path_optimization) s /\
     stdout s = [] /\ stdout_lines s = [] /\ saved s = [path_scalability]).
Proof.
  split; [ | split ].
  - apply (proj1 (C6_summary_on_stdout env_writable)); reflexivity.
  - apply (proj1 (proj2 (C6_summary_on_stdout env_read_only))); reflexivity.
  - apply (proj2 (proj2 (C6_summary_on_stdout
                           {| can_write := fun p => String.eqb p path_scalability |})));
      reflexivity.
Defined.

(** C6 as stated fails: the output depends on the environment.  Where the
    fixed output directory cannot be written, the first [savefig] raises,
    the run ends there and nothing is printed. *)
Lemma C6_nothing_printed_without_files :
  (exists s, main env_read_only init = Raised (OSError path_scalability) s /\
             stdout_lines s = [] /\ saved s = []) /\
  ~ (forall env : Env,
        stdout_lines (state_of (main env init)) =
          confirmation :: "" :: "Key Findings:" :: findings).
Proof.
  split.
  - eexists. split; [reflexivity |]. split; reflexivity.
  - intros H. specialize (H env_read_only). discriminate H.
Qed.

(** C7: the findings are static text.  Whatever the computed series (and the
    rest of the state) are when the summary runs, it cannot fail and it
    appends the same fixed strings to standard output: the confirmation, the
    heading and the five hand-written findings. *)
Theorem C7_summary_is_static :
  forall s1 s2 : State,
    exists s1' s2',
      print_summary s1 = Finished s1' /\ print_summary s2 = Finished s2' /\
      stdout s1' = stdout s1 ++ summary_output /\
      stdout s2' = stdout s2 ++ summary_output /\
      List.filter is_enumerated (split_lines "" (foldr String.append "" summary_output))
        = findings /\
      length findings = 5%nat.
Proof.
  intros s1 s2.
  destruct (print_summary_spec s1) as (s1' & E1 & _ & _ & _ & _ & _ & O1).
  destruct (print_summary_spec s2) as (s2' & E2 & _ & _ & _ & _ & _ & O2).
  exists s1', s2'. repeat split; assumption || reflexivity.
Qed.

(** ** Charts *)

Lemma amax_spec (a : list Z) (top : Z) :
  amax a = Some top -> In top a /\ Forall (fun y => y <= top) a.
Proof.
  revert top. induction a as [| x r IH]; intros top H; [discriminate H |].
  simpl in H. destruct (amax r) as [m |] eqn:E; injection H as <-.
  - destruct (IH m eq_refl) as [Hin Hall]. split.
    + destruct (Z.max_spec x m) as [[_ ->] | [_ ->]]; [right; exact Hin | left; reflexivity].
    + constructor; [lia |]. eapply Forall_impl; [exact Hall |]. intros y Hy. simpl in Hy. lia.
  - destruct r; [ | discriminate E ]. split; [left; reflexivity |].
    constructor; [lia | constructor].
Qed.

(** On any non-empty array of users, Graph 1 is drawn with the two fills the
    script gives it. *)
Lemma ax1_of_fills (us : list Z) (arts : list artist) :
  completed (ax1_of us) = Some arts ->
  exists top, amax (operations_single_bus_of us) = Some top /\
    plotted arts = [operations_single_bus_of us] /\
    fill_extent "Safe Zone" arts = [(0, spark_limit)] /\
    fill_extent "Danger Zone" arts = [(spark_limit, top)].
Proof.
  unfold ax1_of. destruct (amax (operations_single_bus_of us)) as [top |]; [ | discriminate ].
  intros [= <-]. exists top. repeat split.
Qed.

Lemma ax2_of_fills (bs : list Z) (arts : list artist) :
  completed (ax2_of bs) = Some arts ->
  exists top, amax (operations_multi_bus_of bs) = Some top /\
    plotted arts = [operations_multi_bus_of bs] /\
    fill_extent "Safe Zone" arts = [(0, spark_limit)] /\
    fill_extent "Danger Zone" arts = [(spark_limit, top)].
Proof.
  unfold ax2_of. destruct (amax (operations_multi_bus_of bs)) as [top |]; [ | discriminate ].
  intros [= <-]. exists top. repeat split.
Qed.

(** C8: in Graphs 1 and 2 the "Safe Zone" fill spans from 0 to the threshold
    50000 and the "Danger Zone" fill spans from the threshold to the maximum
    of the series plotted on the same axes: 101000 for the single-bus series,
    208000 for the multi-bus series. *)
Theorem C8_fill_regions :
  (exists arts top,
      ax1 = Some arts /\ plotted arts = [operations_single_bus] /\
      fill_extent "Safe Zone" arts = [(0, 50000)] /\
      fill_extent "Danger Zone" arts = [(50000, top)] /\
      amax operations_single_bus = Some top /\
      In top operations_single_bus /\
      Forall (fun y => y <= top) operations_single_bus /\ top = 101000) /\
  (exists arts top,
      ax2 = Some arts /\ plotted arts = [operations_multi_bus] /\
      fill_extent "Safe Zone" arts = [(0, 50000)] /\
      fill_extent "Danger Zone" arts = [(50000, top)] /\
      amax operations_multi_bus = Some top /\
      In top operations_multi_bus /\
      Forall (fun y => y <= top) operations_multi_bus /\ top = 208000).
Proof.
  split.
  - destruct ax1 as [arts |] eqn:E; [ | discriminate E ].
    destruct (ax1_of_fills users arts E) as (top & Hmax & Hp & Hs & Hd).
    destruct (amax_spec _ _ Hmax) as [Hin Hall].
    exists arts, top. repeat split; try assumption.
    vm_compute in Hmax. now injection Hmax as <-.
  - destruct ax2 as [arts |] eqn:E; [ | discriminate E ].
    destruct (ax2_of_fills buses arts E) as (top & Hmax & Hp & Hs & Hd).
    destruct (amax_spec _ _ Hmax) as [Hin Hall].
    exists arts, top. repeat split; try assumption.
    vm_compute in Hmax. now injection Hmax as <-.
Qed.

(** C9: each of the six load scenarios of Graph 4 is annotated 'Safe' exactly
    when its operation count is at most the Spark limit 50000, and its bar is
    'green' exactly when it is 'Safe'; a scenario above the limit is
    'Warning' or 'Critical' and its bar is not green. *)
Theorem C9_status_matches_limit :
  length annotations = 6%nat /\
  Forall (fun a =>
            bar_height (ann_bar a) = ann_value a /\
            (ann_status a = "Safe" <-> ann_value a <= spark_limit) /\
            (bar_color (ann_bar a) = "green" <-> ann_status a = "Safe") /\
            (spark_limit < ann_value a ->
             (ann_status a = "Warning" \/ ann_status a = "Critical") /\
             bar_color (ann_bar a) <> "green"))
         annotations.
Proof.
  split; [reflexivity |].
  unfold annotations, bars, load_scenarios, operations, colors, status, spark_limit.
  simpl zip_with.
  repeat match goal with
         | |- Forall _ (_ :: _) => constructor
         | |- Forall _ [] => constructor
         end; simpl.
  all: split; [reflexivity |].
  all: split; [split; intros H; first [reflexivity | lia | discriminate H] |].
  all: split; [split; intros H; first [reflexivity | discriminate H] |].
  all: intros H; first [lia | split; [auto | discriminate]].
Qed.

(** C10: the five values of the pie chart, 800, 400, 50000, 200 and 144, add
    up to 51544, the value of the 'Current Optimization' bar of Graph 6. *)
Theorem C10_breakdown_total :
  operations_breakdown = [800; 400; 50000; 200; 144] /\
  pie_total operations_breakdown = 51544 /\
  bar_value "Current Optimization" bars_opt = Some (pie_total operations_breakdown).
Proof. repeat split. Qed.

(** * Further properties of the script *)

(** ** The operations series, within the 64-bit range *)

Lemma in_range_bounds (z : Z) :
  Int64.in_range z <-> -9223372036854775808 <= z <= 9223372036854775807.
Proof. reflexivity. Qed.

(** X1: where nothing overflows, both operations series are strictly
    increasing: more users, or more buses, mean more operations, and
    conversely. *)
Theorem X1_series_strictly_increasing :
  (forall (us : list Z) (i j : nat) (u1 u2 : Z),
      us !! i = Some u1 -> us !! j = Some u2 ->
      Int64.in_range (u1 * 50 + 1000) -> Int64.in_range (u2 * 50 + 1000) ->
      exists y1 y2,
        operations_single_bus_of us !! i = Some y1 /\
        operations_single_bus_of us !! j = Some y2 /\
        (u1 < u2 <-> y1 < y2)) /\
  (forall (bs : list Z) (i j : nat) (b1 b2 : Z),
      bs !! i = Some b1 -> bs !! j = Some b2 ->
      Int64.in_range (b1 * 26000) -> Int64.in_range (b2 * 26000) ->
      exists y1 y2,
        operations_multi_bus_of bs !! i = Some y1 /\
        operations_multi_bus_of bs !! j = Some y2 /\
        (b1 < b2 <-> y1 < y2)).
Proof.
  split.
  - intros us i j u1 u2 Hi Hj R1 R2.
    exists (u1 * 50 + 1000), (u2 * 50 + 1000).
    rewrite (single_bus_lookup _ _ _ Hi), (single_bus_lookup _ _ _ Hj).
    unfold single_bus_formula. rewrite !wrap_small by assumption.
    repeat split; lia.
  - intros bs i j b1 b2 Hi Hj R1 R2.
    exists (b1 * 26000), (b2 * 26000).
    rewrite (multi_bus_lookup _ _ _ Hi), (multi_bus_lookup _ _ _ Hj).
    unfold multi_bus_formula. rewrite !wrap_small by assumption.
    repeat split; lia.
Qed.

Lemma X1_series_strictly_increasing_witness :
  (exists y1 y2,
      operations_single_bus_of users !! 1%nat = Some y1 /\
      operations_single_bus_of users !! 4%nat = Some y2 /\
      (100 < 800 <-> y1 < y2)) /\
  (exists y1 y2,
      operations_multi_bus_of buses !! 0%nat = Some y1 /\
      operations_multi_bus_of buses !! 7%nat = Some y2 /\
      (1 < 8 <-> y1 < y2)).
Proof.
  split.
  - apply (proj1 X1_series_strictly_increasing users 1%nat 4%nat 100 800);
      try reflexivity; apply in_range_bounds; simpl; lia.
  - apply (proj2 X1_series_strictly_increasing buses 0%nat 7%nat 1 8);
      try reflexivity; apply in_range_bounds; simpl; lia.
Defined.

(** X2: where nothing overflows, a single bus stays within the Spark limit
    of 50000 operations exactly up to 980 users, and buses of 500 users each
    stay within it exactly up to one bus. *)
Theorem X2_spark_limit_crossing :
  (forall (us : list Z) (i : nat) (u : Z),
      us !! i = Some u -> Int64.in_range (u * 50 + 1000) ->
      exists y, operations_single_bus_of us !! i = Some y /\
                (y <= spark_limit <-> u <= 980)) /\
  (forall (bs : list Z) (i : nat) (b : Z),
      bs !! i = Some b -> Int64.in_range (b * 26000) ->
      exists y, operations_multi_bus_of bs !! i = Some y /\
                (y <= spark_limit <-> b <= 1)).
Proof.
  split.
  - intros us i u Hi R. exists (u * 50 + 1000).
    rewrite (single_bus_lookup _ _ _ Hi). unfold single_bus_formula, spark_limit.
    rewrite wrap_small by assumption. repeat split; lia.
  - intros bs i b Hi R. exists (b * 26000).
    rewrite (multi_bus_lookup _ _ _ Hi). unfold multi_bus_formula, spark_limit.
    rewrite wrap_small by assumption. repeat split; lia.
Qed.

Lemma X2_spark_limit_crossing_witness :
  (exists y, operations_single_bus_of users !! 5%nat = Some y /\
             (y <= spark_limit <-> 1000 <= 980)) /\
  (exists y, operations_multi_bus_of buses !! 1%nat = Some y /\
             (y <= spark_limit <-> 2 <= 1)).
Proof.
  split.
  - apply (proj1 X2_spark_limit_crossing users 5%nat 1000);
      [reflexivity | apply in_range_bounds; simpl; lia].
  - apply (proj2 X2_spark_limit_crossing buses 1%nat 2);
      [reflexivity | apply in_range_bounds; simpl; lia].
Defined.

(** ** The cost curves *)

Lemma SFleb_nonneg_trans (a b c : spec_float) :
  nonneg_finite a -> nonneg_finite b -> nonneg_finite c ->
  SFleb a b = true -> SFleb b c = true -> SFleb a c = true.
Proof.
  intros [-> | (ma & ea & ->)] [-> | (mb & eb & ->)] [-> | (mc & ec & ->)];
    try reflexivity; try discriminate.
  intros Hab Hbc.
  apply SFleb_pos_finite_inv in Hab. apply SFleb_pos_finite_inv in Hbc.
  apply SFleb_pos_finite. lia.
Qed.

Lemma blaze_cost_at_nonneg_finite (o : Z) : nonneg_finite (blaze_cost_at o).
Proof.
  destruct (blaze_cost_at_cases o) as [[_ ->] | (_ & (m & e & -> & _) & _)].
  - now left.
  - right. now exists m, e.
Qed.

(** X3: whatever the operation count, wrapped or not, its Blaze cost is a
    number: never NaN, never negative, never infinite, and at most about
    5.5e12, the cost of the largest [int64] difference. *)
Theorem X3_blaze_cost_bounded :
  forall o : Z,
    Float64.is_nan (blaze_cost_at o) = false /\
    Float64.leb Float64.zero (blaze_cost_at o) = true /\
    Float64.leb (blaze_cost_at o) blaze_cost_max = true /\
    Float64.leb blaze_cost_max Float64.infinity = true /\
    blaze_cost_at (- 2 ^ 63 + 49999) = blaze_cost_max.
Proof.
  intros o.
  assert (Emax : Float64.div
                   (Float64.mul (binary_round prec emax false 9223372036854775807 0)
                      Float64.lit_0_06) (Float64.of_int 100000) = blaze_cost_max)
    by (vm_compute; reflexivity).
  split; [ | split; [ | split; [ | split; [reflexivity | vm_compute; reflexivity] ] ] ].
  - destruct (blaze_cost_at_nonneg_finite o) as [-> | (m & e & ->)]; reflexivity.
  - destruct (blaze_cost_at_nonneg_finite o) as [-> | (m & e & ->)]; reflexivity.
  - destruct (blaze_cost_at_cases o) as [[_ ->] | (Hpos & _ & ->)]; [reflexivity |].
    pose proof (proj1 (in_range_bounds _) (wrap_in_range (o - 50000))) as R.
    fold (Int64.sub o 50000) in R.
    destruct (Int64.sub o 50000) as [| p | p]; try lia.
    rewrite <- Emax.
    change (Float64.of_int (Z.pos p)) with (binary_round prec emax false p 0).
    apply scaled_mono; [lia | reflexivity].
Qed.

(** X4: as long as the difference [o - 50000] does not wrap, the two plans
    are free on exactly the same operation counts, those up to 50000; above,
    the Blaze cost is a positive finite float (a normal one, between 2^-22
    and 2^47) and the Spark cost is infinite, so the Blaze curve never lies
    above the Spark curve. *)
Theorem X4_blaze_free_up_to_threshold :
  forall (ops : list Z) (i : nat) (o : Z),
    ops !! i = Some o -> Int64.in_range (o - 50000) ->
    exists s b,
      spark_cost_of ops !! i = Some s /\ blaze_cost_of ops !! i = Some b /\
      (s = Float64.zero <-> o <= 50000) /\
      (b = Float64.zero <-> o <= 50000) /\
      (50000 < o ->
       (exists (m : positive) (e : Z),
           b = S754_finite false m e /\
           Zdigits2 (Z.pos m) = Float64.prec /\ -74 <= e <= -6) /\
       Float64.leb b Float64.zero = false /\
       Float64.leb b Float64.infinity = true /\ b <> Float64.infinity /\
       s = Float64.infinity) /\
      Float64.leb b s = true.
Proof.
  intros ops i o Hi R.
  exists (if o <=? 50000 then Float64.zero else Float64.infinity), (blaze_cost_at o).
  split; [now apply spark_cost_lookup |]. split; [now apply blaze_cost_lookup |].
  assert (W : Int64.sub o 50000 = o - 50000) by now apply wrap_small.
  destruct (blaze_cost_at_cases o) as [[Hn E] | (Hp & (m & e & E & Hm & He) & _)];
    rewrite W in *; rewrite E.
  - assert (L : (o <=? 50000) = true) by (apply Z.leb_le; lia). rewrite L.
    repeat split; intros; try lia; reflexivity.
  - assert (L : (o <=? 50000) = false) by (apply Z.leb_gt; lia). rewrite L.
    split; [split; intros; [discriminate | lia] |].
    split; [split; intros; [discriminate | lia] |].
    split; [ | reflexivity ].
    intros _. split; [exists m, e; auto |].
    repeat split. discriminate.
Qed.

Lemma X4_blaze_free_up_to_threshold_witness :
  exists s b,
    spark_cost_of operations_range !! 4%nat = Some s /\
    blaze_cost_of operations_range !! 4%nat = Some b /\
    (s = Float64.zero <-> 200000 <= 50000) /\
    (b = Float64.zero <-> 200000 <= 50000) /\
    (50000 < 200000 ->
     (exists (m : positive) (e : Z),
         b = S754_finite false m e /\
         Zdigits2 (Z.pos m) = Float64.prec /\ -74 <= e <= -6) /\
     Float64.leb b Float64.zero = false /\
     Float64.leb b Float64.infinity = true /\ b <> Float64.infinity /\
     s = Float64.infinity) /\
    Float64.leb b s = true.
Proof.
  apply (X4_blaze_free_up_to_threshold operations_range 4%nat 200000);
    [reflexivity | apply in_range_bounds; simpl; lia].
Defined.

(** X5: Graph 3 clips the y-axis to [0, 10].  As long as the difference does
    not wrap, a point of the Blaze curve is inside that range exactly for
    operation counts up to 16716666, and a point of the Spark curve exactly
    for counts up to 50000: the infinite Spark costs are off the chart. *)
Theorem X5_points_inside_ylim :
  forall (ops : list Z) (i : nat) (o : Z),
    int64_array ops -> ops !! i = Some o -> Int64.in_range (o - 50000) ->
    exists s b,
      spark_cost_of ops !! i = Some s /\ blaze_cost_of ops !! i = Some b /\
      (in_ylim s = true <-> o <= 50000) /\
      (in_ylim b = true <-> o <= 16716666).
Proof.
  intros ops i o Harr Hi R.
  exists (if o <=? 50000 then Float64.zero else Float64.infinity), (blaze_cost_at o).
  split; [now apply spark_cost_lookup |]. split; [now apply blaze_cost_lookup |].
  assert (Ho : Int64.in_range o).
  { unfold int64_array in Harr. rewrite Forall_lookup in Harr. exact (Harr i o Hi). }
  apply (proj1 (in_range_bounds _)) in Ho. apply (proj1 (in_range_bounds _)) in R.
  split.
  - destruct (Z.leb_spec o 50000); split; intros H'; try reflexivity; try lia.
    discriminate H'.
  - unfold in_ylim.
    assert (L0 : Float64.leb (Float64.of_int ax3_ylim.1) (blaze_cost_at o) = true).
    { destruct (blaze_cost_at_nonneg_finite o) as [-> | (m & e & ->)]; reflexivity. }
    rewrite L0. simpl andb.
    assert (Ten : nonneg_finite (Float64.of_int ax3_ylim.2)) by (right; eexists _, _; reflexivity).
    split.
    + intros Hle. destruct (Z.le_gt_cases o 16716666) as [? | Hgt]; [assumption | exfalso].
      assert (M : Float64.leb (blaze_cost_at 16716667) (blaze_cost_at o) = true).
      { apply blaze_cost_at_mono; unfold Int64.min_signed, Int64.max_signed;
          change (2 ^ (Int64.bits - 1)) with 9223372036854775808; lia. }
      pose proof (SFleb_nonneg_trans _ _ _ (blaze_cost_at_nonneg_finite 16716667)
                    (blaze_cost_at_nonneg_finite o) Ten M Hle) as T.
      vm_compute in T. discriminate T.
    + intros Hle.
      assert (M : Float64.leb (blaze_cost_at o) (blaze_cost_at 16716666) = true).
      { apply blaze_cost_at_mono; unfold Int64.min_signed, Int64.max_signed;
          change (2 ^ (Int64.bits - 1)) with 9223372036854775808; lia. }
      apply (SFleb_nonneg_trans _ _ _ (blaze_cost_at_nonneg_finite o)
               (blaze_cost_at_nonneg_finite 16716666) Ten M).
      vm_compute. reflexivity.
Qed.

Lemma X5_points_inside_ylim_witness :
  exists s b,
    spark_cost_of operations_range !! 5%nat = Some s /\
    blaze_cost_of operations_range !! 5%nat = Some b /\
    (in_ylim s = true <-> 500000 <= 50000) /\
    (in_ylim b = true <-> 500000 <= 16716666).
Proof.
  apply (X5_points_inside_ylim operations_range 5%nat 500000).
  - unfold int64_array, operations_range. repeat constructor; vm_compute; discriminate.
  - reflexivity.
  - apply in_range_bounds. simpl. lia.
Defined.

(** ** The band charts of Graphs 1 and 2 *)

Lemma amax_None (a : list Z) : amax a = None <-> a = [].
Proof. destruct a; simpl; split; intros H; try reflexivity; discriminate H. Qed.

Lemma amax_below (a : list Z) (top c : Z) :
  amax a = Some top -> (top < c <-> Forall (fun y => y < c) a).
Proof.
  intros H. destruct (amax_spec a top H) as [Hin Hall]. split.
  - intros Hc. eapply Forall_impl; [exact Hall |]. intros y Hy. simpl in Hy. lia.
  - intros Hc. rewrite Forall_forall in Hc. apply Hc. now apply list_elem_of_In.
Qed.

(** X6: the drawing calls of a band chart fail exactly on the empty array,
    with the [ValueError] of [max], and only at the fourth call: the line,
    the limit and the safe fill are on the axes by then, the danger fill is
    not.  On every non-empty array all four are drawn, the danger fill from
    50000 to the largest value of the series, whatever the data; so the
    danger fill is upside down, its upper edge below the limit, exactly when
    every value of the series is below the limit. *)
Theorem X6_band_chart_edges :
  forall us : list Z,
    (us = [] ->
     ax1_of us = Stopped ValueError
                   [ Line [] [] "Total Operations";
                     HLine 50000 "Spark Plan Limit";
                     Fill [] 0 50000 "green" "Safe Zone" ] /\
     ax2_of us = Stopped ValueError
                   [ Line [] [] "Total Operations";
                     HLine 50000 "Spark Plan Limit";
                     Fill [] 0 50000 "green" "Safe Zone" ]) /\
    (us <> [] ->
     (exists top,
         ax1_of us = Drawn [ Line us (operations_single_bus_of us) "Total Operations";
                             HLine 50000 "Spark Plan Limit";
                             Fill us 0 50000 "green" "Safe Zone";
                             Fill us 50000 top "red" "Danger Zone" ] /\
         In top (operations_single_bus_of us) /\
         Forall (fun y => y <= top) (operations_single_bus_of us) /\
         (top < 50000 <->
          Forall (fun y => y < 50000) (operations_single_bus_of us))) /\
     (exists top,
         ax2_of us = Drawn [ Line us (operations_multi_bus_of us) "Total Operations";
                             HLine 50000 "Spark Plan Limit";
                             Fill us 0 50000 "green" "Safe Zone";
                             Fill us 50000 top "red" "Danger Zone" ] /\
         In top (operations_multi_bus_of us) /\
         Forall (fun y => y <= top) (operations_multi_bus_of us) /\
         (top < 50000 <->
          Forall (fun y => y < 50000) (operations_multi_bus_of us)))).
Proof.
  intros us. split.
  - intros ->. split; reflexivity.
  - intros Hne. split.
    + unfold ax1_of.
      destruct (amax (operations_single_bus_of us)) as [top |] eqn:E.
      * exists top. destruct (amax_spec _ _ E) as [Hin Hall].
        repeat split; try assumption; now apply amax_below.
      * apply amax_None in E. unfold operations_single_bus_of in E.
        apply fmap_nil_inv in E. contradiction.
    + unfold ax2_of.
      destruct (amax (operations_multi_bus_of us)) as [top |] eqn:E.
      * exists top. destruct (amax_spec _ _ E) as [Hin Hall].
        repeat split; try assumption; now apply amax_below.
      * apply amax_None in E. unfold operations_multi_bus_of in E.
        apply fmap_nil_inv in E. contradiction.
Qed.

Lemma X6_band_chart_edges_witness :
  (ax1_of [] = Stopped ValueError
                 [ Line [] [] "Total Operations";
                   HLine 50000 "Spark Plan Limit";
                   Fill [] 0 50000 "green" "Safe Zone" ] /\
   ax2_of [] = Stopped ValueError
                 [ Line [] [] "Total Operations";
                   HLine 50000 "Spark Plan Limit";
                   Fill [] 0 50000 "green" "Safe Zone" ]) /\
  (exists top,
      ax1_of [0; 100] =
        Drawn [ Line [0; 100] (operations_single_bus_of [0; 100]) "Total Operations";
                HLine 50000 "Spark Plan Limit";
                Fill [0; 100] 0 50000 "green" "Safe Zone";
                Fill [0; 100] 50000 top "red" "Danger Zone" ] /\
      In top (operations_single_bus_of [0; 100]) /\
      Forall (fun y => y <= top) (operations_single_bus_of [0; 100]) /\
      (top < 50000 <-> Forall (fun y => y < 50000) (operations_single_bus_of [0; 100]))).
Proof.
  split.
  - apply (proj1 (X6_band_chart_edges [])). reflexivity.
  - apply (proj2 (X6_band_chart_edges [0; 100])). discriminate.
Defined.

(** ** The run in every environment *)

(** Closes the conjuncts of a run outcome once the outcome is known. *)
Ltac close_run_case :=
  repeat match goal with |- _ /\ _ => split end;
  try solve
    [ auto
    | discriminate
    | repeat constructor; assumption
    | intros _; left; reflexivity
    | split;
      solve [ auto | discriminate | intros [_ [=]] | intros [[=] _] ] ].

(** X7: in every environment the run ends in one of three ways, decided by
    which of the two image paths can be written.  It finishes exactly when
    both can; otherwise it stops at the first [savefig] that fails, with that
    path in the exception (the second path only when the first was written),
    and never with a [ValueError].  A file written before the failure stays
    written, each written figure has been shown, and the summary is on
    standard output only if the run finished: before that, nothing is
    printed.  The two band charts of the first figure, Graphs 1 and 2, have
    been drawn in full in every case. *)
Theorem X7_run_outcomes :
  forall env : Env,
    let o := main env init in
    let s := state_of o in
    (o = Finished s <->
     can_write env path_scalability = true /\ can_write env path_optimization = true) /\
    (o = Raised (OSError path_scalability) s <->
     can_write env path_scalability = false) /\
    (o = Raised (OSError path_optimization) s <->
     can_write env path_scalability = true /\ can_write env path_optimization = false) /\
    (o = Finished s \/ o = Raised (OSError path_scalability) s \/
     o = Raised (OSError path_optimization) s) /\
    saved s = take (length (saved s)) [path_scalability; path_optimization] /\
    Forall (fun p => can_write env p = true) (saved s) /\
    (can_write env path_scalability = true -> In path_scalability (saved s)) /\
    shown s = length (saved s) /\
    (stdout s = [] \/
     (o = Finished s /\ stdout s = summary_output /\
      saved s = [path_scalability; path_optimization])) /\
    axes s = [artists (ax1_of users); artists (ax2_of buses)] /\
    (exists a1 a2, ax1_of users = Drawn a1 /\ ax2_of buses = Drawn a2).
Proof.
  intros env o s. subst s o.
  assert (D : exists a1 a2, ax1_of users = Drawn a1 /\ ax2_of buses = Drawn a2)
    by (eexists _, _; split; reflexivity).
  destruct (can_write env path_scalability) eqn:W1;
    [ destruct (can_write env path_optimization) eqn:W2 | ].
  - assert (E : exists s, main env init = Finished s /\
                  saved s = [path_scalability; path_optimization] /\
                  shown s = 2%nat /\ stdout s = summary_output /\
                  axes s = [artists (ax1_of users); artists (ax2_of buses)]).
    { unfold main, seq, savefig. rewrite W1. cbn. rewrite W2.
      eexists. split; [reflexivity |]. repeat split. }
    destruct E as (s & -> & Hs & Hn & Ho & Ha). cbn [state_of].
    rewrite Hs, Hn, Ho, Ha. cbn [length take]. close_run_case.
  - assert (E : exists s, main env init = Raised (OSError path_optimization) s /\
                  saved s = [path_scalability] /\
                  shown s = 1%nat /\ stdout s = [] /\
                  axes s = [artists (ax1_of users); artists (ax2_of buses)]).
    { unfold main, seq, savefig. rewrite W1. cbn. rewrite W2.
      eexists. split; [reflexivity |]. repeat split. }
    destruct E as (s & -> & Hs & Hn & Ho & Ha). cbn [state_of].
    rewrite Hs, Hn, Ho, Ha. cbn [length take]. close_run_case.
  - assert (E : exists s, main env init = Raised (OSError path_scalability) s /\
                  saved s = [] /\
                  shown s = 0%nat /\ stdout s = [] /\
                  axes s = [artists (ax1_of users); artists (ax2_of buses)]).
    { unfold main, seq, savefig. rewrite W1.
      eexists. split; [reflexivity |]. repeat split. }
    destruct E as (s & -> & Hs & Hn & Ho & Ha). cbn [state_of].
    rewrite Hs, Hn, Ho, Ha. cbn [length take]. close_run_case.
Qed.

(** ** The labels above the bars *)

Lemma uint_digits (d : Decimal.uint) :
  Forall (fun c => is_digit c = true) (list_ascii_of_string (NilEmpty.string_of_uint d)).
Proof. induction d; simpl; constructor; try reflexivity; assumption. Qed.

Lemma uint_digits_nilzero (d : Decimal.uint) :
  Forall (fun c => is_digit c = true) (list_ascii_of_string (NilZero.string_of_uint d)).
Proof.
  destruct d; try apply uint_digits. simpl. constructor; [reflexivity | constructor].
Qed.

Lemma digit_not_comma (c : ascii) : is_digit c = true -> Ascii.eqb c "," = false.
Proof.
  unfold is_digit. simpl. intros H.
  repeat (apply orb_prop in H; destruct H as [H | H];
          [apply Ascii.eqb_eq in H; subst c; reflexivity |]).
  discriminate H.
Qed.

Lemma remove_commas_group3 (k : nat) (ds : list ascii) :
  Forall (fun c => is_digit c = true) ds -> remove_commas (group3 k ds) = ds.
Proof.
  intros H. revert k. induction H as [| d r Hd Hr IH]; intros k; [reflexivity |].
  simpl. destruct (Nat.eqb k 3); simpl; rewrite (digit_not_comma d Hd); simpl;
    now rewrite IH.
Qed.

Lemma remove_commas_rev (cs : list ascii) : remove_commas (rev cs) = rev (remove_commas cs).
Proof.
  unfold remove_commas. induction cs as [| c r IH]; [reflexivity |].
  simpl. rewrite List.filter_app, IH. simpl. destruct (negb (Ascii.eqb c ",")); simpl.
  - reflexivity.
  - now rewrite app_nil_r.
Qed.

Lemma remove_commas_group_digits (ds : list ascii) :
  Forall (fun c => is_digit c = true) ds -> remove_commas (group_digits ds) = ds.
Proof.
  intros H. unfold group_digits.
  rewrite remove_commas_rev, remove_commas_group3, rev_involutive; [reflexivity |].
  now apply Forall_rev.
Qed.

Lemma to_int_not_nil (z : Z) : Z.to_int z <> Decimal.Pos Decimal.Nil /\
                               Z.to_int z <> Decimal.Neg Decimal.Nil.
Proof.
  destruct z as [| p | p]; simpl; split; try discriminate; intros [= H];
    now apply (Unsigned.to_uint_nonnil p).
Qed.

Lemma parse_format_thousands (z : Z) : parse_thousands (format_thousands z) = Some z.
Proof.
  unfold parse_thousands, format_thousands.
  assert (E : forall d, string_of_list_ascii (remove_commas (group_digits
                 (list_ascii_of_string (NilZero.string_of_uint d))))
               = NilZero.string_of_uint d).
  { intros d. rewrite remove_commas_group_digits by apply uint_digits_nilzero.
    apply string_of_list_ascii_of_string. }
  destruct (to_int_not_nil z) as [Hp Hn].
  pose proof (NilZero.isi (Z.to_int z) Hp Hn) as I.
  destruct (Z.to_int z) as [d | d] eqn:Ez.
  - rewrite list_ascii_of_string_of_list_ascii, E.
    change (NilZero.string_of_uint d) with (NilZero.string_of_int (Decimal.Pos d)).
    rewrite I. cbn [option_map]. f_equal. rewrite <- Ez. apply DecimalZ.of_to.
  - simpl list_ascii_of_string. rewrite list_ascii_of_string_of_list_ascii.
    change (remove_commas ("-"%char :: ?l)) with ("-"%char :: remove_commas l).
    simpl string_of_list_ascii. rewrite E.
    change (String "-" (NilZero.string_of_uint d))
      with (NilZero.string_of_int (Decimal.Neg d)).
    rewrite I. cbn [option_map]. f_equal. rewrite <- Ez. apply DecimalZ.of_to.
Qed.

(** X8: a label printed with thousands separators reads back as the number
    it was printed from, so different operation counts never get the same
    label. *)
Theorem X8_format_thousands_round_trip :
  (forall z : Z, parse_thousands (format_thousands z) = Some z) /\
  (forall z1 z2 : Z, format_thousands z1 = format_thousands z2 -> z1 = z2).
Proof.
  split; [exact parse_format_thousands |].
  intros z1 z2 H. pose proof (parse_format_thousands z1) as R1.
  rewrite H, parse_format_thousands in R1. now injection R1.
Qed.

Lemma X8_format_thousands_round_trip_witness : 100000 + 5000 = 105 * 1000.
Proof.
  apply (proj2 X8_format_thousands_round_trip (100000 + 5000) (105 * 1000)). reflexivity.
Defined.

(** X9: the digits of a label are grouped in threes from the right: up to
    three digits are printed as they are, and three more digits after a
    non-empty number are set off by one comma; the label of a non-negative
    count is its decimal writing grouped in this way. *)
Theorem X9_digits_grouped_in_threes :
  (forall ds : list ascii, (length ds <= 3)%nat -> group_digits ds = ds) /\
  (forall (ds : list ascii) (a b c : ascii),
      ds <> [] ->
      group_digits (ds ++ [a; b; c]) = group_digits ds ++ [","%char; a; b; c]) /\
  (forall z : Z,
      0 <= z ->
      format_thousands z =
      string_of_list_ascii
        (group_digits (list_ascii_of_string (NilZero.string_of_int (Z.to_int z))))).
Proof.
  split; [ | split ].
  - intros [| a [| b [| c [| d r]]]] H; try reflexivity. simpl in H. lia.
  - intros ds a b c Hne. unfold group_digits.
    rewrite rev_app_distr. simpl rev at 2. simpl app at 1.
    destruct (rev ds) as [| x r] eqn:E.
    + exfalso. apply Hne. rewrite <- (rev_involutive ds), E. reflexivity.
    + simpl. rewrite <- !app_assoc. reflexivity.
  - intros [| p | p] H; try reflexivity. lia.
Qed.

Lemma X9_digits_grouped_in_threes_witness :
  group_digits (list_ascii_of_string "105" ++ ["0"; "0"; "0"]%char) =
  list_ascii_of_string "105,000".
Proof.
  rewrite (proj1 (proj2 X9_digits_grouped_in_threes) (list_ascii_of_string "105"))
    by discriminate.
  rewrite (proj1 X9_digits_grouped_in_threes) by (simpl; lia).
  reflexivity.
Defined.

Lemma group3_label_chars (k : nat) (ds : list ascii) :
  Forall (fun c => is_digit c = true) ds ->
  Forall (fun c => label_char c = true) (group3 k ds).
Proof.
  intros H. revert k. induction H as [| d r Hd Hr IH]; intros k; [constructor |].
  assert (Ld : label_char d = true) by (unfold label_char; now rewrite Hd).
  simpl. destruct (Nat.eqb k 3); repeat constructor; auto.
Qed.

Lemma format_thousands_chars (z : Z) :
  Forall (fun c => label_char c = true) (list_ascii_of_string (format_thousands z)).
Proof.
  assert (G : forall d, Forall (fun c => label_char c = true)
                (group_digits (list_ascii_of_string (NilZero.string_of_uint d)))).
  { intros d. unfold group_digits. apply Forall_rev, group3_label_chars, Forall_rev.
    apply uint_digits_nilzero. }
  unfold format_thousands. destruct (Z.to_int z) as [d | d].
  - rewrite list_ascii_of_string_of_list_ascii. apply G.
  - simpl. rewrite list_ascii_of_string_of_list_ascii. constructor; [reflexivity | apply G].
Qed.

Lemma label_char_not_newline (c : ascii) : label_char c = true -> Ascii.eqb c "010" = false.
Proof.
  intros H. destruct (Ascii.eqb_spec c "010") as [-> | _]; [discriminate H | reflexivity].
Qed.

(** Two texts that agree, each a line without a newline, a newline and a
    rest, agree on the line and on the rest. *)
Lemma first_line_inj (s1 s2 t1 t2 : string) :
  Forall (fun c => Ascii.eqb c "010" = false) (list_ascii_of_string s1) ->
  Forall (fun c => Ascii.eqb c "010" = false) (list_ascii_of_string s2) ->
  s1 +:+ nl +:+ t1 = s2 +:+ nl +:+ t2 -> s1 = s2 /\ t1 = t2.
Proof.
  revert s2. induction s1 as [| c1 r1 IH]; intros [| c2 r2] H1 H2 E.
  - change (String "010" t1 = String "010" t2) in E. injection E as ->. auto.
  - change (String "010" t1 = String c2 (r2 +:+ nl +:+ t2)) in E. injection E as <- _.
    inversion H2 as [| ? ? Hc _]. discriminate Hc.
  - change (String c1 (r1 +:+ nl +:+ t1) = String "010" t2) in E. injection E as -> _.
    inversion H1 as [| ? ? Hc _]. discriminate Hc.
  - change (String c1 (r1 +:+ nl +:+ t1) = String c2 (r2 +:+ nl +:+ t2)) in E.
    injection E as -> E. simpl in H1, H2.
    inversion H1 as [| ? ? _ H1']. inversion H2 as [| ? ? _ H2']. subst.
    destruct (IH r2 H1' H2' E) as [-> ->]. auto.
Qed.

(** X10: the text above a bar of Graph 4 tells both what it was made from:
    two annotations with the same text have the same operation count and the
    same status, whatever the status string is. *)
Theorem X10_annotation_text_determines_value_and_status :
  forall a1 a2 : annotation,
    annotation_text a1 = annotation_text a2 ->
    ann_value a1 = ann_value a2 /\ ann_status a1 = ann_status a2.
Proof.
  intros a1 a2 E. unfold annotation_text in E.
  assert (N : forall z, Forall (fun c => Ascii.eqb c "010" = false)
                          (list_ascii_of_string (format_thousands z))).
  { intros z. eapply Forall_impl; [apply format_thousands_chars |].
    intros c Hc. now apply label_char_not_newline. }
  destruct (first_line_inj _ _ _ _ (N (ann_value a1)) (N (ann_value a2)) E) as [Ef Es].
  split; [ | exact Es ].
  pose proof (parse_format_thousands (ann_value a1)) as R1.
  rewrite Ef, parse_format_thousands in R1. now injection R1.
Qed.

Lemma X10_annotation_text_determines_value_and_status_witness :
  let a1 := {| ann_bar := {| bar_x := "1B+100U"; bar_height := 6000; bar_color := "green" |};
               ann_value := 6000; ann_status := "Safe" |} in
  let a2 := {| ann_bar := {| bar_x := "2B+0U"; bar_height := 2000; bar_color := "red" |};
               ann_value := 2 * 3000; ann_status := "Safe" |} in
  ann_value a1 = ann_value a2 /\ ann_status a1 = ann_status a2.
Proof.
  intros a1 a2.
  apply (X10_annotation_text_determines_value_and_status a1 a2). reflexivity.
Defined.
